(** * rich-ls: a directory tree lister

    A shallow embedding of [rich-ls.py]: the resolution of [.gitignore]
    rules ([load_gitignore_patterns]), the recursive walker
    ([walk_directory]) and the command entry point ([main]), together with
    the properties of the traversal: depth limiting, ordering, hidden-file
    filtering, exclusion globs and ignore rules.

    The filesystem is a finite tree of entries, each directory listing kept
    in the order in which the operating system enumerates it.  The
    libraries the script calls ([fnmatch], [pathspec], [str.lower],
    [pathlib]'s [resolve] and [suffix]) are collaborators held in a class;
    every theorem holds for all of their implementations.  The loop of
    [load_gitignore_patterns] and the recursion of [walk_directory] run on
    fuel, and the theorems give the fuel that is enough. *)

From Stdlib Require Import List String Ascii ZArith Bool Lia Permutation Sorted.
Import ListNotations.
Local Open Scope string_scope.
Local Open Scope Z_scope.
Local Open Scope list_scope.

Set Implicit Arguments.
Set Warnings "-register-all".

(** ** Paths *)

(** A [pathlib.Path] in absolute form: the components below the filesystem
    root, the root itself being the empty list. *)
Definition Path := list string.

(** [p / name] *)
Definition joinpath (p : Path) (name : string) : Path := p ++ [name].
Notation "p </> n" := (joinpath p n) (at level 40, left associativity).

(** [p.parent]; the parent of the filesystem root is the root. *)
Definition parent (p : Path) : Path := removelast p.

Definition path_eqb (p q : Path) : bool :=
  if list_eq_dec string_dec p q then true else false.

(** [path.relative_to(other)]: the components of [path] below [other], or
    [None] where Python raises [ValueError]. *)
Fixpoint relative_to (path other : Path) : option Path :=
  match other, path with
  | [], _ => Some path
  | o :: other', c :: path' =>
      if String.eqb o c then relative_to path' other' else None
  | _ :: _, [] => None
  end.

(** [str(rel_path)] of a relative path. *)
Definition str_rel (rel : Path) : string :=
  match rel with
  | [] => "."
  | _ => String.concat "/" rel
  end.

(** [name.startswith(p)] *)
Definition startswith (name p : string) : bool := String.prefix p name.

(** ** The filesystem *)

(** A directory entry: a regular file with its size and its text as the
    lines [read().splitlines()] gives, a directory with its listing in
    enumeration order, or a special file (FIFO, socket, device), which is
    neither [is_file()] nor [is_dir()]. *)
Inductive entry : Type :=
| File (name : string) (size : Z) (lines : list string)
| Dir (name : string) (listing : list entry)
| Special (name : string) (size : Z).

Definition name (e : entry) : string :=
  match e with
  | File n _ _ | Dir n _ | Special n _ => n
  end.

Definition is_file (e : entry) : bool :=
  match e with File _ _ _ => true | _ => false end.

Definition is_dir (e : entry) : bool :=
  match e with Dir _ _ => true | _ => false end.

(** [pathlib.Path(directory).iterdir()] of an entry. *)
Definition iterdir (e : entry) : list entry :=
  match e with Dir _ l => l | _ => [] end.

(** The entry a path names, looked up from the root directory [fs]. *)
Fixpoint lookup (fs : entry) (p : Path) {struct p} : option entry :=
  match p with
  | [] => Some fs
  | c :: p' =>
      match find (fun e => String.eqb (name e) c) (iterdir fs) with
      | Some e => lookup e p'
      | None => None
      end
  end.

(** [path.exists()] *)
Definition path_exists (fs : entry) (p : Path) : bool :=
  match lookup fs p with Some _ => true | None => false end.

(** [path.is_dir()] *)
Definition path_is_dir (fs : entry) (p : Path) : bool :=
  match lookup fs p with Some e => is_dir e | None => false end.

(** Nesting of directories below an entry. *)
Fixpoint levels (e : entry) : nat :=
  match e with
  | Dir _ l => S (list_max (map levels l))
  | _ => O
  end.

Definition listing_levels (l : list entry) : nat := list_max (map levels l).

(** ** Results of running the script's functions *)

Inductive exception : Type :=
| IsADirectoryError (p : Path)
| OSError (p : Path).

(** A call returns, raises, or is cut off because the fuel given to a loop
    or recursion ran out. *)
Inductive result (A : Type) : Type :=
| Returned (a : A)
| Raised (e : exception)
| OutOfFuel.
Arguments Returned {A} a.
Arguments Raised {A} e.
Arguments OutOfFuel {A}.

Definition bind {A B} (r : result A) (k : A -> result B) : result B :=
  match r with
  | Returned a => k a
  | Raised e => Raised e
  | OutOfFuel => OutOfFuel
  end.

Notation "x <- r ;; k" := (bind r (fun x => k))
  (at level 61, r at next level, right associativity).
Notation "' pat <- r ;; k" := (bind r (fun x => match x with pat => k end))
  (at level 61, pat pattern, r at next level, right associativity).

(** [open(path, "r")] followed by [f.read().splitlines()] *)
Definition read_lines (fs : entry) (p : Path) : result (list string) :=
  match lookup fs p with
  | Some (File _ _ lines) => Returned lines
  | Some (Dir _ _) => Raised (IsADirectoryError p)
  | _ => Raised (OSError p)
  end.

(** ** The tree being built *)

(** The two icons of a file node. *)
Inductive Icon : Type := Snake | Page.

(** What a node shows.  [DirText] stands for the markup string of a
    directory, with the target of its [link] tag when links are on and the
    escaped name; [FileText] for the [Text] of a file: icon, name, link
    target and the size handed to [decimal]; [RootText] for the root's
    markup. *)
Inductive Label : Type :=
| DirText (link : option Path) (dir_name : string)
| FileText (icon : Icon) (file_name : string) (link : option Path) (file_size : Z)
| RootText (link : bool) (dir_path : Path).

(** A [rich.tree.Tree]: label, the [style] and [guide_style] given when it
    was made ([None] when left out), and its children. *)
Inductive Tree : Type :=
| Node (label : Label) (style guide_style : option string) (children : list Tree).

Definition label (t : Tree) : Label := let (l, _, _, _) := t in l.
Definition style (t : Tree) : option string := let (_, s, _, _) := t in s.
Definition guide_style (t : Tree) : option string := let (_, _, g, _) := t in g.
Definition children (t : Tree) : list Tree := let (_, _, _, c) := t in c.

(** [tree.add(...)], the node added being [node]: it is appended to the
    children. *)
Definition add (tree node : Tree) : Tree :=
  Node (label tree) (style tree) (guide_style tree) (children tree ++ [node]).

(** [tree] after the nodes [nodes] were added in turn. *)
Definition extend (tree : Tree) (nodes : list Tree) : Tree :=
  Node (label tree) (style tree) (guide_style tree) (children tree ++ nodes).

(** The entry name a node was made for, and whether it is a directory
    node. *)
Definition node_name (t : Tree) : string :=
  match label t with
  | DirText _ n => n
  | FileText _ n _ _ => n
  | RootText _ _ => ""
  end.

Definition is_dir_node (t : Tree) : bool :=
  match label t with DirText _ _ => true | _ => false end.

Definition is_file_node (t : Tree) : bool :=
  match label t with FileText _ _ _ _ => true | _ => false end.

(** ** The command line *)

Module Cli.

Record Args : Type := {
  directory : string;
  exclude : option (list string);
  depth : option Z;
  show_hidden : bool;
  links : bool;
  gitignore : bool
}.

(** What a run leaves behind: the exit code, the lines echoed to standard
    error and the trees printed. *)
Record Run : Type := {
  exit_code : Z;
  stderr : list string;
  stdout : list Tree
}.

(** The arguments with the [--gitignore] flag set to [b]. *)
Definition with_gitignore (b : bool) (args : Args) : Args :=
  {| directory := directory args;
     exclude := exclude args;
     depth := depth args;
     show_hidden := show_hidden args;
     links := links args;
     gitignore := b |}.

End Cli.

(** ** Collaborators *)

(** The library functions the script consumes.  [spec_bool] is the truth
    value of a compiled rule set ([PathSpec] has a length, so a rule set
    without patterns is false); such a rule set matches nothing, which is
    [match_file_bool]. *)
Class Collaborators : Type := {
  lower : string -> string;
  fnmatch : string -> string -> bool;
  suffix : string -> string;
  resolve : string -> Path;
  PathSpec : Type;
  from_lines : list string -> PathSpec;
  match_file : PathSpec -> string -> bool;
  spec_bool : PathSpec -> bool;
  match_file_bool : forall s f, match_file s f = true -> spec_bool s = true
}.

Section Program.

Context {lib : Collaborators}.

(** ** [load_gitignore_patterns] *)

(** The [while True] loop, with its variables [patterns], [current_dir]
    and [git_root] as state; it returns the state at [break]. *)
Fixpoint gitignore_loop (fuel : nat) (fs : entry) (directory : Path)
    (patterns : list string) (current_dir : Path) (git_root : option Path)
    : result (list string * option Path) :=
  match fuel with
  | O => OutOfFuel
  | S fuel' =>
      let gitignore_path := current_dir </> ".gitignore" in
      patterns <-
        (if path_exists fs gitignore_path
         then lines <- read_lines fs gitignore_path ;;
              Returned (patterns ++ lines)
         else Returned patterns) ;;
      if path_exists fs (current_dir </> ".git")
      then Returned (patterns, Some current_dir)
      else if path_eqb (parent current_dir) current_dir
      then
        match patterns, git_root with
        | _ :: _, None => Returned (patterns, Some directory)
        | _, _ => Returned (patterns, git_root)
        end
      else gitignore_loop fuel' fs directory patterns (parent current_dir) git_root
  end.

Definition load_gitignore_patterns (fuel : nat) (fs : entry) (directory : Path)
    : result (option PathSpec * option Path) :=
  ' (patterns, git_root) <- gitignore_loop fuel fs directory [] directory None ;;
  match patterns with
  | _ :: _ => Returned (Some (from_lines patterns), git_root)
  | [] => Returned (None, None)
  end.

(** ** Sorting the listing *)

(** The sort key [(path.is_file(), path.name.lower())]. *)
Definition sort_key (path : entry) : bool * string :=
  (is_file path, lower (name path)).

(** Python's order on such tuples: [False] before [True], then the strings
    by code point, which for names held as UTF-8 bytes is the order by
    bytes. *)
Definition key_leb (k1 k2 : bool * string) : bool :=
  match fst k1, fst k2 with
  | false, true => true
  | true, false => false
  | _, _ => String.leb (snd k1) (snd k2)
  end.

(** [sorted(xs, key=key)]: a stable sort, written as the insertion sort
    that puts an element before the first element of the sorted rest whose
    key is not smaller. *)
Fixpoint insert_by {A : Type} (key : A -> bool * string) (x : A) (l : list A)
    : list A :=
  match l with
  | [] => [x]
  | y :: l' =>
      if key_leb (key x) (key y) then x :: y :: l'
      else y :: insert_by key x l'
  end.

Fixpoint sorted {A : Type} (key : A -> bool * string) (l : list A) : list A :=
  match l with
  | [] => []
  | x :: l' => insert_by key x (sorted key l')
  end.

(** The order of the sort on the elements themselves. *)
Definition key_le {A : Type} (key : A -> bool * string) (x y : A) : Prop :=
  key_leb (key x) (key y) = true.

(** ** [walk_directory] *)

(** The arguments [walk_directory] hands down unchanged. *)
Record FilterOptions : Type := {
  exclude_patterns : option (list string);
  gitignore_spec : option PathSpec;
  git_root : option Path;
  show_links : bool;
  show_hidden : bool;
  max_depth : option Z
}.

(** [max_depth is not None and current_depth >= max_depth] *)
Definition depth_reached (opts : FilterOptions) (current_depth : Z) : bool :=
  match max_depth opts with
  | Some k => k <=? current_depth
  | None => false
  end.

(** The check of the gitignore patterns: whether the loop goes on to the
    next entry.  A failing [relative_to] skips the check. *)
Definition gitignore_skip (opts : FilterOptions) (path : Path) : bool :=
  match gitignore_spec opts, git_root opts with
  | Some spec, Some root =>
      if spec_bool spec then
        match relative_to path root with
        | Some rel_path => match_file spec (str_rel rel_path)
        | None => false
        end
      else false
  | _, _ => false
  end.

(** The check of the exclusion patterns. *)
Definition exclude_skip (opts : FilterOptions) (name : string) : bool :=
  match exclude_patterns opts with
  | Some ((_ :: _) as patterns) => existsb (fun pattern => fnmatch name pattern) patterns
  | _ => false
  end.

(** The node of a directory, before the walk into it. *)
Definition dir_branch (opts : FilterOptions) (directory : Path) (name : string) : Tree :=
  let style := if startswith name "__" then "dim" else "" in
  let dir_text :=
    DirText (if show_links opts then Some (directory </> name) else None) name in
  Node dir_text (Some style) (Some style) [].

(** The node of anything that is not a directory. *)
Definition file_node (opts : FilterOptions) (directory : Path) (name : string)
    (file_size : Z) : Tree :=
  let icon := if String.eqb (suffix name) ".py" then Snake else Page in
  Node (FileText icon name
          (if show_links opts then Some (directory </> name) else None) file_size)
       None None [].

(** The [for path in paths] loop; [recurse] is the recursive call. *)
Fixpoint walk_loop (recurse : Path -> list entry -> Tree -> Z -> result Tree)
    (directory : Path) (opts : FilterOptions) (current_depth : Z)
    (paths : list entry) (tree : Tree) : result Tree :=
  match paths with
  | [] => Returned tree
  | path :: rest =>
      let continue := walk_loop recurse directory opts current_depth rest in
      if negb (show_hidden opts) && startswith (name path) "." then continue tree
      else if gitignore_skip opts (directory </> name path) then continue tree
      else if exclude_skip opts (name path) then continue tree
      else
        match path with
        | Dir name listing =>
            branch <- recurse (directory </> name) listing
                        (dir_branch opts directory name) (current_depth + 1) ;;
            continue (add tree branch)
        | File name file_size _ | Special name file_size =>
            continue (add tree (file_node opts directory name file_size))
        end
  end.

(** [walk_directory(directory, tree, ..., current_depth)], [entries] being
    what [iterdir()] gives for [directory]; the result is [tree] after the
    call. *)
Fixpoint walk_directory (fuel : nat) (directory : Path) (entries : list entry)
    (tree : Tree) (opts : FilterOptions) (current_depth : Z) : result Tree :=
  match fuel with
  | O => OutOfFuel
  | S fuel' =>
      if depth_reached opts current_depth then Returned tree
      else
        let paths := sorted sort_key entries in
        walk_loop (fun d l t c => walk_directory fuel' d l t opts c)
                  directory opts current_depth paths tree
  end.

(** ** [main] *)

Definition main (fs : entry) (args : Cli.Args) : result Cli.Run :=
  let dir_path := resolve (Cli.directory args) in
  if negb (path_exists fs dir_path) then
    Returned {| Cli.exit_code := 1;
                Cli.stderr := [("Error: Directory '" ++ Cli.directory args
                                 ++ "' does not exist.")%string];
                Cli.stdout := [] |}
  else if negb (path_is_dir fs dir_path) then
    Returned {| Cli.exit_code := 1;
                Cli.stderr := [("Error: '" ++ Cli.directory args
                                 ++ "' is not a directory.")%string];
                Cli.stdout := [] |}
  else
    ' (gitignore_spec, git_root) <-
      (if Cli.gitignore args
       then load_gitignore_patterns (S (List.length dir_path)) fs dir_path
       else Returned (None, None)) ;;
    let tree := Node (RootText (Cli.links args) dir_path)
                     None (Some "bold bright_blue") [] in
    let entries :=
      match lookup fs dir_path with Some e => iterdir e | None => [] end in
    tree <- walk_directory (S (listing_levels entries)) dir_path entries tree
              {| exclude_patterns := Cli.exclude args;
                 gitignore_spec := gitignore_spec;
                 git_root := git_root;
                 show_links := Cli.links args;
                 show_hidden := Cli.show_hidden args;
                 max_depth := Cli.depth args |} 0 ;;
    Returned {| Cli.exit_code := 0; Cli.stderr := []; Cli.stdout := [tree] |}.

(** ** Notions the properties are stated with *)

(** [p] and its ancestors, nearest first, the filesystem root last. *)
Fixpoint ancestors_from (n : nat) (p : Path) : list Path :=
  p :: match n with
       | O => []
       | S n' => ancestors_from n' (parent p)
       end.

Definition ancestors (p : Path) : list Path := ancestors_from (List.length p) p.

(** The repository marker as the code tests it: anything named [.git]. *)
Definition has_git (fs : entry) (p : Path) : bool :=
  path_exists fs (p </> ".git").

(** The marker as a directory named [.git]. *)
Definition has_git_directory (fs : entry) (p : Path) : bool :=
  path_is_dir fs (p </> ".git").

(** The directories visited on the way up: all up to and including the
    first one with the marker. *)
Fixpoint visited (fs : entry) (ps : list Path) : list Path :=
  match ps with
  | [] => []
  | p :: ps' => p :: (if has_git fs p then [] else visited fs ps')
  end.

(** The lines of the [.gitignore] of a directory, none when there is no
    such file. *)
Definition gitignore_lines (fs : entry) (p : Path) : list string :=
  match lookup fs (p </> ".gitignore") with
  | Some (File _ _ lines) => lines
  | _ => []
  end.

(** A directory whose [.gitignore], if it has one, is a regular file. *)
Definition gitignore_readable (fs : entry) (p : Path) : bool :=
  match lookup fs (p </> ".gitignore") with
  | Some (File _ _ _) | None => true
  | Some _ => false
  end.

(** The pattern lines collected from [directory] upwards. *)
Definition collected (fs : entry) (directory : Path) : list string :=
  flat_map (gitignore_lines fs) (visited fs (ancestors directory)).

(** The ignore root: the nearest ancestor with the marker, [directory]
    itself when there is none. *)
Definition ignore_root (fs : entry) (directory : Path) : Path :=
  match find (has_git fs) (ancestors directory) with
  | Some p => p
  | None => directory
  end.

(** The options with other exclusion patterns. *)
Definition set_exclude (patterns : option (list string)) (opts : FilterOptions)
    : FilterOptions :=
  {| exclude_patterns := patterns;
     gitignore_spec := gitignore_spec opts;
     git_root := git_root opts;
     show_links := show_links opts;
     show_hidden := show_hidden opts;
     max_depth := max_depth opts |}.

(** An entry that passes the three filters of the loop. *)
Definition shown (opts : FilterOptions) (directory : Path) (e : entry) : bool :=
  negb (negb (show_hidden opts) && startswith (name e) ".")
  && negb (gitignore_skip opts (directory </> name e))
  && negb (exclude_skip opts (name e)).

(** The node the walk makes for a shown entry of [directory] enumerated
    at [current_depth], and the nodes it adds for a listing. *)
Fixpoint node_of (opts : FilterOptions) (directory : Path) (current_depth : Z)
    (e : entry) : Tree :=
  match e with
  | Dir nm l =>
      extend (dir_branch opts directory nm)
        (if depth_reached opts (current_depth + 1) then []
         else
           map snd
             (filter (fun p => shown opts (directory </> nm) (fst p))
                (sorted (fun p => sort_key (fst p))
                   (map (fun c => (c, node_of opts (directory </> nm)
                                        (current_depth + 1) c)) l))))
  | File nm file_size _ | Special nm file_size =>
      file_node opts directory nm file_size
  end.

Definition nodes_of (opts : FilterOptions) (directory : Path) (current_depth : Z)
    (entries : list entry) : list Tree :=
  if depth_reached opts current_depth then []
  else map (node_of opts directory current_depth)
           (filter (shown opts directory) (sorted sort_key entries)).

(** [e] is the entry at the relative path [rel] below a directory with
    listing [entries], and it and the directories above it are shown. *)
Inductive shown_at (opts : FilterOptions)
    : Path -> list entry -> list string -> entry -> Prop :=
| shown_here directory entries e :
    In e entries -> shown opts directory e = true ->
    shown_at opts directory entries [name e] e
| shown_below directory entries nm l rel e :
    In (Dir nm l) entries -> shown opts directory (Dir nm l) = true ->
    shown_at opts (directory </> nm) l rel e ->
    shown_at opts directory entries (nm :: rel) e.

(** [n] is the node at the relative path [rel] below the nodes [nodes]. *)
Inductive node_at : list Tree -> list string -> Tree -> Prop :=
| node_here nodes n :
    In n nodes -> node_at nodes [node_name n] n
| node_below nodes m rel n :
    In m nodes -> node_at (children m) rel n ->
    node_at nodes (node_name m :: rel) n.

(** The depth of the entry at a relative path, 0 for the entries of the
    root. *)
Definition depth_of (rel : list string) : Z := Z.of_nat (List.length rel) - 1.

(** All nodes of a tree satisfy [P]. *)
Fixpoint all_nodes (P : Tree -> bool) (t : Tree) : bool :=
  P t && forallb (all_nodes P) (children t).

(** The order of two sibling nodes: a directory node before a file node,
    and two nodes of one kind by their lowercased names. *)
Definition node_before (n1 n2 : Tree) : Prop :=
  (is_dir_node n1 = true /\ is_file_node n2 = true)
  \/ (is_dir_node n1 = is_dir_node n2
      /\ String.leb (lower (node_name n1)) (lower (node_name n2)) = true).

(** The target of the link a node carries, if any. *)
Definition node_link (t : Tree) : option Path :=
  match label t with
  | DirText l _ => l
  | FileText _ _ l _ => l
  | RootText _ _ => None
  end.

(** The test [if gitignore_spec and git_root] of the loop. *)
Definition ignore_guard (opts : FilterOptions) : bool :=
  match gitignore_spec opts, git_root opts with
  | Some spec, Some _ => spec_bool spec
  | _, _ => false
  end.

(** The options without rule set and ignore root. *)
Definition without_gitignore (opts : FilterOptions) : FilterOptions :=
  {| exclude_patterns := exclude_patterns opts;
     gitignore_spec := None;
     git_root := None;
     show_links := show_links opts;
     show_hidden := show_hidden opts;
     max_depth := max_depth opts |}.

(** The options with another depth limit. *)
Definition set_max_depth (limit : option Z) (opts : FilterOptions) : FilterOptions :=
  {| exclude_patterns := exclude_patterns opts;
     gitignore_spec := gitignore_spec opts;
     git_root := git_root opts;
     show_links := show_links opts;
     show_hidden := show_hidden opts;
     max_depth := limit |}.


End Program.

(** ** Collaborators and filesystems to run the program on *)

Module Demo.

(** [str.lower] on ASCII names. *)
Definition ascii_lower (c : ascii) : ascii :=
  let n := N_of_ascii c in
  if ((65 <=? n) && (n <=? 90))%N then ascii_of_N (n + 32) else c.

Fixpoint lower (s : string) : string :=
  match s with
  | EmptyString => EmptyString
  | String c s' => String (ascii_lower c) (lower s')
  end.

(** Glob matching for patterns made of [*], [?] and literal characters. *)
Fixpoint glob (pattern name : string) {struct pattern} : bool :=
  match pattern with
  | EmptyString => match name with EmptyString => true | _ => false end
  | String "*" pattern' =>
      (fix star (name : string) : bool :=
         glob pattern' name
         || match name with
            | EmptyString => false
            | String _ name' => star name'
            end) name
  | String "?" pattern' =>
      match name with
      | EmptyString => false
      | String _ name' => glob pattern' name'
      end
  | String c pattern' =>
      match name with
      | EmptyString => false
      | String d name' => Ascii.eqb c d && glob pattern' name'
      end
  end.

Definition fnmatch (name pattern : string) : bool := glob pattern name.

Fixpoint split (sep : ascii) (s : string) : list string :=
  match s with
  | EmptyString => [EmptyString]
  | String c s' =>
      if Ascii.eqb c sep then EmptyString :: split sep s'
      else match split sep s' with
           | h :: t => String c h :: t
           | [] => [String c EmptyString]
           end
  end.

(** [PurePath.suffix]: the last dot and what follows, when something
    stands before the dot and after it. *)
Definition suffix (name : string) : string :=
  match rev (split "." name) with
  | last :: _ :: _ =>
      if String.eqb last "" || (String.length name <=? String.length last + 1)%nat
      then ""
      else ("." ++ last)%string
  | _ => ""
  end.

(** [Path(directory).resolve()] in a process whose working directory is
    the filesystem root, without symbolic links. *)
Definition resolve (directory : string) : Path :=
  fold_left
    (fun acc c =>
       if String.eqb c "" || String.eqb c "." then acc
       else if String.eqb c ".." then parent acc
       else acc </> c)
    (split "/" directory) [].

(** Rule sets of patterns without [/] and without negation: blank lines
    are dropped, comment lines match nothing, and a path matches when a
    pattern matches one of its components. *)
Definition from_lines (lines : list string) : list string :=
  filter (fun l => negb (String.eqb l "")) lines.

Definition match_file (spec : list string) (file : string) : bool :=
  existsb (fun pattern =>
             negb (startswith pattern "#")
             && existsb (glob pattern) (split "/" file)) spec.

Definition spec_bool (spec : list string) : bool :=
  match spec with [] => false | _ => true end.

#[export] Instance collaborators : Collaborators :=
  Build_Collaborators lower fnmatch suffix resolve from_lines match_file spec_bool
    (fun spec file =>
       match spec as s return match_file s file = true -> spec_bool s = true with
       | [] => fun H => H
       | _ :: _ => fun _ => eq_refl
       end).

(** The directory of the script's depth test, with the root file
    enumerated last. *)
Definition tmp_path : entry :=
  Dir "" [ Dir "level1"
             [ File "file1.txt" 7 ["level 1"];
               Dir "level2"
                 [ File "file2.txt" 7 ["level 2"];
                   Dir "level3" [ File "file3.txt" 7 ["level 3"] ] ] ];
           File "root_file.txt" 10 ["root level"] ].

(** A repository with a submodule: [/repo] holds a [.git] directory, and
    [/repo/sub] a [.git] file and a [.gitignore] of its own. *)
Definition repo : entry :=
  Dir "" [ Dir "repo"
             [ Dir ".git" [ File "HEAD" 21 ["ref: refs/heads/main"] ];
               File ".gitignore" 6 ["build"];
               Dir "sub"
                 [ File ".git" 29 ["gitdir: ../.git/modules/sub"];
                   File ".gitignore" 6 ["*.pyc"];
                   File "mod.py" 12 ["print('hi')"];
                   File "mod.pyc" 40 [] ] ];
           File "notes.txt" 3 ["hi"] ].

(** A directory with a dot file, two names that differ in case only, and
    files for the exclusion globs. *)
Definition mixed : list entry :=
  [ File "test.txt" 9 ["text file"];
    File ".hidden.txt" 6 ["hidden"];
    Dir "src" [ File "a.py" 10 []; File ".env" 4 [] ];
    File "data.json" 2 ["{}"];
    File "test.py" 11 ["python file"] ].

Definition options (exclude : option (list string)) (hidden : bool)
    (depth : option Z) : FilterOptions :=
  {| exclude_patterns := exclude;
     gitignore_spec := None;
     git_root := None;
     show_links := false;
     show_hidden := hidden;
     max_depth := depth |}.

(** Options with a rule set and an ignore root. *)
Definition ignoring (lines : list string) (root : Path) : FilterOptions :=
  {| exclude_patterns := None;
     gitignore_spec := Some (from_lines lines);
     git_root := Some root;
     show_links := false;
     show_hidden := true;
     max_depth := None |}.

Definition root_tree : Tree := Node (RootText false []) None None [].

(** Options with links on and dot files shown. *)
Definition linked : FilterOptions :=
  {| exclude_patterns := None;
     gitignore_spec := None;
     git_root := None;
     show_links := true;
     show_hidden := true;
     max_depth := None |}.

(** A working directory whose [.gitignore] is a directory. *)
Definition broken : entry :=
  Dir "" [ Dir "work" [ Dir ".gitignore" []; File "a.txt" 1 ["a"] ] ].

(** A listing with a special file. *)
Definition devices : list entry :=
  [ File "README" 5 ["hello"]; Dir "pts" []; Special "null" 0 ].

(** A listing with two names that differ in case only. *)
Definition readmes : list entry :=
  [ File "b.txt" 1 ["b"]; File "readme" 2 ["lower"];
    Dir "src" []; File "README" 3 ["upper"] ].

Definition arguments (directory : string) (gitignore : bool) : Cli.Args :=
  {| Cli.directory := directory;
     Cli.exclude := None;
     Cli.depth := None;
     Cli.show_hidden := false;
     Cli.links := false;
     Cli.gitignore := gitignore |}.


End Demo.


(** * Proofs *)

(** ** The order on names *)

Lemma ascii_compare_refl (a : ascii) : Ascii.compare a a = Eq.
Proof. unfold Ascii.compare. apply N.compare_refl. Qed.

Lemma ascii_compare_lt_trans (a b c : ascii) :
  Ascii.compare a b = Lt -> Ascii.compare b c = Lt -> Ascii.compare a c = Lt.
Proof.
  unfold Ascii.compare. rewrite !N.compare_lt_iff. apply N.lt_trans.
Qed.

Lemma string_compare_lt_trans (s1 : string) :
  forall s2 s3, String.compare s1 s2 = Lt -> String.compare s2 s3 = Lt ->
                String.compare s1 s3 = Lt.
Proof.
  induction s1 as [|a s1 IH]; intros [|b s2] [|c s3]; simpl; try congruence.
  destruct (Ascii.compare a b) eqn:Eab; try congruence;
    destruct (Ascii.compare b c) eqn:Ebc; try congruence; intros H12 H23.
  - apply Ascii.compare_eq_iff in Eab, Ebc. subst.
    rewrite ascii_compare_refl. eauto.
  - apply Ascii.compare_eq_iff in Eab. subst. now rewrite Ebc.
  - apply Ascii.compare_eq_iff in Ebc. subst. now rewrite Eab.
  - now rewrite (ascii_compare_lt_trans _ _ _ Eab Ebc).
Qed.

Lemma string_compare_refl (s : string) : String.compare s s = Eq.
Proof.
  induction s as [|a s IH]; simpl; [reflexivity|].
  now rewrite ascii_compare_refl.
Qed.

Lemma string_leb_refl (s : string) : String.leb s s = true.
Proof. unfold String.leb. now rewrite string_compare_refl. Qed.

Lemma string_leb_trans (s1 s2 s3 : string) :
  String.leb s1 s2 = true -> String.leb s2 s3 = true -> String.leb s1 s3 = true.
Proof.
  unfold String.leb.
  destruct (String.compare s1 s2) eqn:E12; try discriminate;
    destruct (String.compare s2 s3) eqn:E23; try discriminate; intros _ _.
  - apply String.compare_eq_iff in E12, E23. subst. apply string_leb_refl.
  - apply String.compare_eq_iff in E12. subst. now rewrite E23.
  - apply String.compare_eq_iff in E23. subst. now rewrite E12.
  - now rewrite (string_compare_lt_trans _ _ _ E12 E23).
Qed.

Lemma key_leb_refl (k : bool * string) : key_leb k k = true.
Proof. destruct k as [[|] s]; apply string_leb_refl. Qed.

Lemma key_leb_total (k1 k2 : bool * string) :
  key_leb k1 k2 = true \/ key_leb k2 k1 = true.
Proof.
  destruct k1 as [[|] s1], k2 as [[|] s2]; unfold key_leb; simpl; auto;
    apply String.leb_total.
Qed.

Lemma key_leb_trans (k1 k2 k3 : bool * string) :
  key_leb k1 k2 = true -> key_leb k2 k3 = true -> key_leb k1 k3 = true.
Proof.
  destruct k1 as [[|] s1], k2 as [[|] s2], k3 as [[|] s3]; unfold key_leb; simpl;
    try congruence; apply string_leb_trans.
Qed.

Lemma key_leb_antisym (k1 k2 : bool * string) :
  key_leb k1 k2 = true -> key_leb k2 k1 = true -> k1 = k2.
Proof.
  destruct k1 as [[|] s1], k2 as [[|] s2]; unfold key_leb; simpl;
    try congruence; intros H1 H2; f_equal; now apply String.leb_antisym.
Qed.

(** ** [sorted] is a stable sort *)

Section Sorted.

Variable A : Type.
Variable key : A -> bool * string.

Lemma insert_by_perm (x : A) (l : list A) :
  Permutation (x :: l) (insert_by key x l).
Proof.
  induction l as [|y l IH]; simpl; [reflexivity|].
  destruct (key_leb (key x) (key y)); [reflexivity|].
  rewrite perm_swap. now constructor.
Qed.

Lemma sorted_perm (l : list A) : Permutation l (sorted key l).
Proof.
  induction l as [|x l IH]; simpl; [constructor|].
  rewrite <- insert_by_perm. now constructor.
Qed.

Lemma sorted_In (l : list A) (x : A) : In x (sorted key l) <-> In x l.
Proof.
  split; apply Permutation_in; [symmetry|]; apply sorted_perm.
Qed.

Lemma insert_by_sorted (x : A) (l : list A) :
  StronglySorted (key_le key) l -> StronglySorted (key_le key) (insert_by key x l).
Proof.
  induction 1 as [|y l Hl IH Hy]; simpl.
  - repeat constructor.
  - destruct (key_leb (key x) (key y)) eqn:E.
    + constructor; [now constructor|].
      constructor; [exact E|].
      eapply Forall_impl; [|exact Hy].
      intros z Hz. unfold key_le in *. eapply key_leb_trans; eauto.
    + constructor; [exact IH|].
      eapply Permutation_Forall; [apply insert_by_perm|].
      constructor; [|exact Hy].
      unfold key_le. destruct (key_leb_total (key x) (key y)); congruence.
Qed.

Lemma sorted_sorted (l : list A) : StronglySorted (key_le key) (sorted key l).
Proof.
  induction l as [|x l IH]; simpl; [constructor|].
  now apply insert_by_sorted.
Qed.

(** Stability: the elements of one key keep the order they came in. *)
Lemma insert_by_stable (P : bool * string -> bool) (x : A) (l : list A) :
  (forall k1 k2, key_leb k1 k2 = true -> key_leb k2 k1 = true -> P k1 = P k2) ->
  (forall y, In y l -> P (key y) = true -> P (key x) = true ->
             key_leb (key x) (key y) = true) ->
  filter (fun y => P (key y)) (insert_by key x l)
  = filter (fun y => P (key y)) (x :: l).
Proof.
  intros HP. induction l as [|y l IH]; intros Hx; simpl; [reflexivity|].
  destruct (key_leb (key x) (key y)) eqn:E; [reflexivity|].
  simpl. rewrite IH by (intros; apply Hx; simpl; auto). simpl.
  destruct (P (key x)) eqn:Px, (P (key y)) eqn:Py; try reflexivity.
  rewrite Hx in E; simpl; auto. discriminate.
Qed.

Lemma sorted_stable (k : bool * string) (l : list A) :
  let same y := key_leb (key y) k && key_leb k (key y) in
  filter same (sorted key l) = filter same l.
Proof.
  intros same. induction l as [|x l IH]; simpl; [reflexivity|].
  transitivity (filter same (x :: sorted key l)).
  - apply (insert_by_stable (fun k' => key_leb k' k && key_leb k k')).
    + intros k1 k2 H12 H21.
      now rewrite (key_leb_antisym _ _ H12 H21).
    + intros y _ Hy Hx.
      apply andb_true_iff in Hy, Hx.
      eapply key_leb_trans; [apply Hx|apply Hy].
  - simpl. now rewrite IH.
Qed.

(** Two sorted listings of the same elements are equal when no two
    elements share a key. *)
Lemma sorted_unique (l1 l2 : list A) :
  StronglySorted (key_le key) l1 -> StronglySorted (key_le key) l2 ->
  Permutation l1 l2 -> NoDup (map key l1) -> l1 = l2.
Proof.
  intros S1. revert l2.
  induction S1 as [|x l1 S1 IH Hx]; intros l2 S2 HP ND.
  - now apply Permutation_nil in HP.
  - destruct S2 as [|y l2 S2 Hy].
    + symmetry in HP. now apply Permutation_nil in HP.
    + assert (Exy : x = y).
      { assert (In x (y :: l2)) as [E|Hin]
          by (eapply Permutation_in; [exact HP|now left]); [now subst|].
        assert (In y (x :: l1)) as [E|Hin']
          by (eapply Permutation_in; [symmetry; exact HP|now left]); [now subst|].
        rewrite Forall_forall in Hx, Hy.
        assert (Ek : key x = key y)
          by (apply key_leb_antisym; [apply Hx|apply Hy]; assumption).
        inversion ND as [|? ? Hnin _]; subst.
        exfalso. apply Hnin. rewrite Ek. now apply in_map. }
      subst y. f_equal. apply IH; auto.
      * now apply Permutation_cons_inv in HP.
      * now inversion ND.
Qed.

Lemma sorted_permutation_eq (l1 l2 : list A) :
  Permutation l1 l2 -> NoDup (map key l1) -> sorted key l1 = sorted key l2.
Proof.
  intros HP ND. apply sorted_unique; try apply sorted_sorted.
  - rewrite <- !sorted_perm. exact HP.
  - eapply Permutation_NoDup; [|exact ND].
    apply Permutation_map, sorted_perm.
Qed.

End Sorted.

(** Sorting commutes with pairing every element with a value computed
    from it. *)
Lemma sorted_decorated (A B : Type) (key : A -> bool * string) (f : A -> B)
    (l : list A) :
  sorted (fun p => key (fst p)) (map (fun x => (x, f x)) l)
  = map (fun x => (x, f x)) (sorted key l).
Proof.
  induction l as [|x l IH]; simpl; [reflexivity|].
  rewrite IH. generalize (sorted key l). clear IH.
  induction l0 as [|y l0 IH]; simpl; [reflexivity|].
  destruct (key_leb (key x) (key y)); simpl; [reflexivity|].
  now rewrite IH.
Qed.

Lemma filter_decorated (A B : Type) (P : A -> bool) (f : A -> B) (l : list A) :
  map snd (filter (fun p => P (fst p)) (map (fun x => (x, f x)) l))
  = map f (filter P l).
Proof.
  induction l as [|x l IH]; simpl; [reflexivity|].
  destruct (P x); simpl; now rewrite IH.
Qed.

Lemma listing_levels_In (e : entry) (l : list entry) :
  In e l -> (levels e <= listing_levels l)%nat.
Proof.
  intros Hin. unfold listing_levels.
  assert (H : Forall (fun k => (k <= list_max (map levels l))%nat) (map levels l))
    by now apply list_max_le.
  rewrite Forall_forall in H. apply H. now apply in_map.
Qed.

Lemma listing_levels_perm (l1 l2 : list entry) :
  Permutation l1 l2 -> listing_levels l1 = listing_levels l2.
Proof.
  unfold listing_levels. induction 1; simpl; lia.
Qed.

Section Properties.

Context {lib : Collaborators}.

(** ** The walk up to the repository marker *)

Lemma parent_length (p : Path) :
  p <> [] -> List.length p = S (List.length (parent p)).
Proof.
  intros Hp. unfold parent.
  rewrite (app_removelast_last "" Hp) at 1.
  rewrite length_app. simpl. lia.
Qed.

Lemma parent_eqb (p : Path) : path_eqb (parent p) p = true <-> p = [].
Proof.
  unfold path_eqb. destruct (list_eq_dec string_dec (parent p) p) as [E|N].
  - split; [intros _|reflexivity].
    destruct p as [|c p]; [reflexivity|].
    assert (H : c :: p <> []) by discriminate.
    apply parent_length in H. rewrite E in H. lia.
  - split; [discriminate|]. intros ->. now contradiction N.
Qed.

Lemma ancestors_root : ancestors [] = [[]].
Proof. reflexivity. Qed.

Lemma ancestors_step (p : Path) : p <> [] -> ancestors p = p :: ancestors (parent p).
Proof.
  intros Hp. unfold ancestors. now rewrite (parent_length Hp).
Qed.

Lemma read_gitignore (fs : entry) (p : Path) (patterns : list string) :
  gitignore_readable fs p = true ->
  (if path_exists fs (p </> ".gitignore")
   then lines <- read_lines fs (p </> ".gitignore") ;; Returned (patterns ++ lines)
   else Returned patterns)
  = Returned (patterns ++ gitignore_lines fs p).
Proof.
  unfold gitignore_readable, path_exists, read_lines, gitignore_lines.
  destruct (lookup fs (p </> ".gitignore")) as [[| |]|]; simpl;
    try discriminate; intros _; try reflexivity.
  now rewrite app_nil_r.
Qed.

Lemma gitignore_loop_spec (fs : entry) (directory : Path) (fuel : nat) :
  forall current_dir patterns,
    (List.length current_dir < fuel)%nat ->
    forallb (gitignore_readable fs) (visited fs (ancestors current_dir)) = true ->
    gitignore_loop fuel fs directory patterns current_dir None
    = Returned
        (patterns ++ flat_map (gitignore_lines fs) (visited fs (ancestors current_dir)),
         match find (has_git fs) (ancestors current_dir) with
         | Some p => Some p
         | None =>
             match patterns ++ flat_map (gitignore_lines fs)
                                 (visited fs (ancestors current_dir)) with
             | [] => None
             | _ :: _ => Some directory
             end
         end).
Proof.
  induction fuel as [|fuel IH]; intros current_dir patterns Hlen Hread; [lia|].
  destruct (list_eq_dec string_dec current_dir []) as [Hroot|Hdir].
  - subst current_dir. rewrite ancestors_root in *. simpl in Hread.
    rewrite andb_true_iff in Hread. destruct Hread as [Hread _].
    simpl gitignore_loop. rewrite (read_gitignore _ _ _ Hread). simpl.
    fold (has_git fs []).
    destruct (has_git fs []); simpl; rewrite app_nil_r; [reflexivity|].
    now destruct (patterns ++ gitignore_lines fs []).
  - rewrite (ancestors_step Hdir) in *. simpl in Hread.
    rewrite andb_true_iff in Hread. destruct Hread as [Hread Hrest].
    simpl gitignore_loop. rewrite (read_gitignore _ _ _ Hread). simpl.
    fold (has_git fs current_dir).
    destruct (has_git fs current_dir) eqn:Hgit; simpl.
    + now rewrite app_nil_r.
    + destruct (path_eqb (parent current_dir) current_dir) eqn:E.
      { apply parent_eqb in E. contradiction. }
      rewrite IH; auto.
      * now rewrite app_assoc.
      * apply parent_length in Hdir. lia.
Qed.

Lemma gitignore_loop_total (fs : entry) (directory : Path) (fuel : nat) :
  forall current_dir patterns,
    (List.length current_dir < fuel)%nat ->
    match gitignore_loop fuel fs directory patterns current_dir None with
    | Returned (_ :: _, None) | OutOfFuel => False
    | _ => True
    end.
Proof.
  induction fuel as [|fuel IH]; intros current_dir patterns Hlen; [lia|].
  simpl.
  destruct (path_exists fs (current_dir </> ".gitignore"));
    [destruct (read_lines fs (current_dir </> ".gitignore")) as [lines| |] eqn:R|];
    simpl; auto.
  - destruct (path_exists fs (current_dir </> ".git")).
    { now destruct (patterns ++ lines). }
    destruct (path_eqb (parent current_dir) current_dir) eqn:E.
    { now destruct (patterns ++ lines). }
    apply IH.
    assert (current_dir <> []) as Hdir
      by (intros H; apply parent_eqb in H; congruence).
    apply parent_length in Hdir. lia.
  - unfold read_lines in R.
    destruct (lookup fs (current_dir </> ".gitignore")) as [[| |]|]; discriminate.
  - destruct (path_exists fs (current_dir </> ".git")).
    { now destruct patterns. }
    destruct (path_eqb (parent current_dir) current_dir) eqn:E.
    { now destruct patterns. }
    apply IH.
    assert (current_dir <> []) as Hdir
      by (intros H; apply parent_eqb in H; congruence).
    apply parent_length in Hdir. lia.
Qed.

(** C4, as amended: started at any directory, [load_gitignore_patterns]
    collects the lines of the [.gitignore] files from the start directory
    up to and including the first ancestor that contains an entry named
    [.git], of any kind, or up to the filesystem root when there is none.
    When no line was collected it returns (absent, absent); otherwise it
    returns the compiled lines with, as ignore root, that first ancestor
    or, when the root was reached without a marker, the start directory. *)
Theorem load_gitignore_patterns_ignore_root (fs : entry) (directory : Path) (fuel : nat) :
  (List.length directory < fuel)%nat ->
  forallb (gitignore_readable fs) (visited fs (ancestors directory)) = true ->
  load_gitignore_patterns fuel fs directory
  = Returned
      match collected fs directory with
      | [] => (None, None)
      | (_ :: _) as patterns => (Some (from_lines patterns), Some (ignore_root fs directory))
      end.
Proof.
  intros Hlen Hread. unfold load_gitignore_patterns, collected, ignore_root.
  rewrite gitignore_loop_spec by assumption. simpl.
  destruct (flat_map (gitignore_lines fs) (visited fs (ancestors directory)));
    [reflexivity|].
  now destruct (find (has_git fs) (ancestors directory)).
Qed.

(** C10: [load_gitignore_patterns] never runs forever, and when it returns
    (a [.gitignore] that cannot be read makes it raise), the rule set and
    the ignore root are both present or both absent. *)
Theorem load_gitignore_patterns_both_or_neither (fs : entry) (directory : Path) (fuel : nat) :
  (List.length directory < fuel)%nat ->
  match load_gitignore_patterns fuel fs directory with
  | Returned (Some _, Some _) | Returned (None, None) | Raised _ => True
  | Returned (Some _, None) | Returned (None, Some _) | OutOfFuel => False
  end.
Proof.
  intros Hlen. unfold load_gitignore_patterns.
  pose proof (gitignore_loop_total fs directory directory [] Hlen) as H.
  destruct (gitignore_loop fuel fs directory [] directory None)
    as [[[|line patterns] [root|]]| |]; simpl; auto.
Qed.

(** ** What the walk adds to the tree *)

Lemma extend_nil (tree : Tree) : extend tree [] = tree.
Proof. destruct tree. unfold extend. simpl. now rewrite app_nil_r. Qed.

Lemma extend_add (tree node : Tree) (nodes : list Tree) :
  extend (add tree node) nodes = extend tree (node :: nodes).
Proof. unfold extend, add. simpl. now rewrite <- app_assoc. Qed.

Lemma node_of_Dir (opts : FilterOptions) (directory : Path) (d : Z)
    (nm : string) (l : list entry) :
  node_of opts directory d (Dir nm l)
  = extend (dir_branch opts directory nm) (nodes_of opts (directory </> nm) (d + 1) l).
Proof.
  simpl. unfold nodes_of. f_equal.
  destruct (depth_reached opts (d + 1)); [reflexivity|].
  rewrite (sorted_decorated sort_key). apply filter_decorated.
Qed.

Lemma walk_loop_spec (opts : FilterOptions) (directory : Path) (d : Z)
    (recurse : Path -> list entry -> Tree -> Z -> result Tree) (paths : list entry) :
  (forall nm l, In (Dir nm l) paths ->
     recurse (directory </> nm) l (dir_branch opts directory nm) (d + 1)
     = Returned (node_of opts directory d (Dir nm l))) ->
  forall tree,
    walk_loop recurse directory opts d paths tree
    = Returned (extend tree (map (node_of opts directory d)
                               (filter (shown opts directory) paths))).
Proof.
  induction paths as [|path rest IH]; intros Hrec tree; simpl.
  - now rewrite extend_nil.
  - assert (IH' := IH (fun nm l H => Hrec nm l (or_intror H))).
    unfold shown.
    destruct (negb (show_hidden opts) && startswith (name path) "."); simpl; auto.
    destruct (gitignore_skip opts (directory </> name path)); simpl; auto.
    destruct (exclude_skip opts (name path)); simpl; auto.
    destruct path as [nm sz lines|nm l|nm sz].
    + rewrite IH'. now rewrite extend_add.
    + rewrite (Hrec nm l (or_introl eq_refl)). simpl bind.
      rewrite IH'. now rewrite extend_add.
    + rewrite IH'. now rewrite extend_add.
Qed.

(** With fuel for the nesting of the listing, [walk_directory] returns the
    tree with the nodes [nodes_of] added. *)
Lemma walk_directory_spec (opts : FilterOptions) (fuel : nat) :
  forall directory entries tree d,
    (listing_levels entries < fuel)%nat ->
    walk_directory fuel directory entries tree opts d
    = Returned (extend tree (nodes_of opts directory d entries)).
Proof.
  induction fuel as [|fuel IH]; intros directory entries tree d Hfuel; [lia|].
  simpl. unfold nodes_of.
  destruct (depth_reached opts d); [now rewrite extend_nil|].
  apply walk_loop_spec. intros nm l Hin.
  rewrite node_of_Dir. apply IH.
  apply sorted_In, listing_levels_In in Hin. simpl in Hin. unfold listing_levels. lia.
Qed.

Lemma node_of_name (opts : FilterOptions) (directory : Path) (d : Z) (e : entry) :
  node_name (node_of opts directory d e) = name e.
Proof. now destruct e. Qed.

Lemma node_of_is_dir (opts : FilterOptions) (directory : Path) (d : Z) (e : entry) :
  is_dir_node (node_of opts directory d e) = is_dir e.
Proof. now destruct e. Qed.

Lemma node_of_children (opts : FilterOptions) (directory : Path) (d : Z) (e : entry) :
  children (node_of opts directory d e)
  = nodes_of opts (directory </> name e) (d + 1) (iterdir e).
Proof.
  destruct e as [nm sz lines|nm l|nm sz].
  - unfold nodes_of. simpl. now destruct (depth_reached opts (d + 1)).
  - now rewrite node_of_Dir.
  - unfold nodes_of. simpl. now destruct (depth_reached opts (d + 1)).
Qed.

Lemma nodes_of_In (opts : FilterOptions) (directory : Path) (d : Z)
    (entries : list entry) (n : Tree) :
  In n (nodes_of opts directory d entries)
  <-> depth_reached opts d = false
      /\ exists e, In e entries /\ shown opts directory e = true
                   /\ n = node_of opts directory d e.
Proof.
  unfold nodes_of. destruct (depth_reached opts d).
  - simpl. split; [tauto|]. intros [H _]. discriminate.
  - rewrite in_map_iff. split.
    + intros (e & <- & He). apply filter_In in He. destruct He as [He Hs].
      apply sorted_In in He. eauto 6.
    + intros (_ & e & He & Hs & ->). exists e. split; [reflexivity|].
      apply filter_In. split; [now apply sorted_In|exact Hs].
Qed.

(** ** Nodes and entries along a relative path *)

Lemma depth_reached_mono (opts : FilterOptions) (d d' : Z) :
  d <= d' -> depth_reached opts d' = false -> depth_reached opts d = false.
Proof.
  unfold depth_reached. destruct (max_depth opts); [|reflexivity].
  rewrite !Z.leb_gt. lia.
Qed.

Lemma depth_of_cons (nm : string) (rel : list string) :
  depth_of (nm :: rel) = depth_of rel + 1.
Proof. unfold depth_of. simpl List.length. lia. Qed.

Lemma shown_at_depth (opts : FilterOptions) (directory : Path)
    (entries : list entry) (rel : list string) (e : entry) :
  shown_at opts directory entries rel e -> 0 <= depth_of rel.
Proof.
  induction 1.
  - unfold depth_of. simpl. lia.
  - rewrite depth_of_cons. lia.
Qed.

Lemma shown_at_nil (opts : FilterOptions) (directory : Path)
    (rel : list string) (e : entry) :
  ~ shown_at opts directory [] rel e.
Proof. intros H. inversion H; subst; contradiction. Qed.

(** A shown entry above the depth limit has its node. *)
Lemma nodes_of_complete (opts : FilterOptions) (directory : Path)
    (entries : list entry) (rel : list string) (e : entry) :
  shown_at opts directory entries rel e ->
  forall d,
    depth_reached opts (d + depth_of rel) = false ->
    exists n, node_at (nodes_of opts directory d entries) rel n
              /\ node_name n = name e /\ is_dir_node n = is_dir e.
Proof.
  induction 1 as [directory entries e Hin Hs
                 |directory entries nm l rel e Hin Hs Hat IH]; intros d Hd.
  - replace (d + depth_of [name e]) with d in Hd by (unfold depth_of; simpl; lia).
    exists (node_of opts directory d e).
    rewrite node_of_name, node_of_is_dir. repeat split.
    assert (H : node_at (nodes_of opts directory d entries)
                  [node_name (node_of opts directory d e)] (node_of opts directory d e))
      by (apply node_here, nodes_of_In; eauto).
    now rewrite node_of_name in H.
  - rewrite depth_of_cons in Hd.
    pose proof (shown_at_depth Hat) as Hrel.
    destruct (IH (d + 1)) as (n & Hn & Hname & Hdir).
    { now replace (d + 1 + depth_of rel) with (d + (depth_of rel + 1)) by lia. }
    exists n. repeat split; auto.
    replace nm with (node_name (node_of opts directory d (Dir nm l))) by reflexivity.
    apply node_below.
    + apply nodes_of_In. split; [|eauto].
      eapply depth_reached_mono; [|exact Hd]. lia.
    + now rewrite node_of_children.
Qed.

(** Every node stands for a shown entry above the depth limit, and its
    children are what the walk adds one level further down. *)
Lemma nodes_of_sound (opts : FilterOptions) (nodes : list Tree)
    (rel : list string) (n : Tree) :
  node_at nodes rel n ->
  forall directory entries d,
    nodes = nodes_of opts directory d entries ->
    depth_reached opts (d + depth_of rel) = false
    /\ exists e q, shown_at opts directory entries rel e
                   /\ n = node_of opts q (d + depth_of rel) e.
Proof.
  induction 1 as [nodes n Hin|nodes m rel n Hin Hat IH];
    intros directory entries d ->.
  - apply nodes_of_In in Hin. destruct Hin as (Hd & e & He & Hs & ->).
    replace (d + depth_of [node_name (node_of opts directory d e)]) with d
      by (unfold depth_of; simpl; lia).
    split; [exact Hd|]. exists e, directory. split; [|reflexivity].
    rewrite node_of_name. now constructor.
  - apply nodes_of_In in Hin. destruct Hin as (Hd & em & Hem & Hs & ->).
    rewrite node_of_children in IH.
    destruct (IH _ _ _ eq_refl) as (Hd' & e & q & He & ->).
    rewrite depth_of_cons, node_of_name.
    replace (d + (depth_of rel + 1)) with (d + 1 + depth_of rel) by lia.
    split; [exact Hd'|]. exists e, q. split; [|reflexivity].
    destruct em as [nm sz lines|nm l|nm sz]; simpl in He;
      try (now apply shown_at_nil in He).
    now apply shown_below with (l := l).
Qed.

Lemma nodes_of_leaf (opts : FilterOptions) (q : Path) (d : Z) (e : entry) :
  depth_reached opts (d + 1) = true -> children (node_of opts q d e) = [].
Proof.
  intros Hd. rewrite node_of_children. unfold nodes_of. now rewrite Hd.
Qed.

(** C1, as amended: for every root directory and every depth limit [k],
    the tree [walk_directory] produces contains a node for every entry at
    relative depth below [k] that the filters show together with the
    directories above it, contains no node at relative depth [k] or more,
    and its nodes at depth exactly [k - 1] have no children (depth 0 being
    the root's immediate children). *)
Theorem walk_directory_depth_limit (opts : FilterOptions) (directory : Path)
    (entries : list entry) (tree : Tree) (k : Z) (fuel : nat) :
  max_depth opts = Some k ->
  (listing_levels entries < fuel)%nat ->
  exists nodes,
    walk_directory fuel directory entries tree opts 0 = Returned (extend tree nodes)
    /\ (forall rel e,
          shown_at opts directory entries rel e -> depth_of rel < k ->
          exists n, node_at nodes rel n
                    /\ node_name n = name e /\ is_dir_node n = is_dir e)
    /\ (forall rel n, node_at nodes rel n -> depth_of rel < k)
    /\ (forall rel n, node_at nodes rel n -> depth_of rel = k - 1 -> children n = []).
Proof.
  intros Hk Hfuel. exists (nodes_of opts directory 0 entries).
  assert (Hreach : forall x, depth_reached opts x = (k <=? x))
    by (intros x; unfold depth_reached; now rewrite Hk).
  split; [now apply walk_directory_spec|]. repeat split.
  - intros rel e Hat Hrel. apply nodes_of_complete with (1 := Hat).
    rewrite Hreach. apply Z.leb_gt. lia.
  - intros rel n Hat.
    destruct (nodes_of_sound opts Hat _ _ _ eq_refl) as (Hd & _).
    rewrite Hreach in Hd. apply Z.leb_gt in Hd. lia.
  - intros rel n Hat Hrel.
    destruct (nodes_of_sound opts Hat _ _ _ eq_refl) as (_ & e & q & _ & ->).
    apply nodes_of_leaf. rewrite Hreach. apply Z.leb_le. lia.
Qed.

(** C2: without [max_depth] the walk goes into every subdirectory, so
    every entry shown together with the directories above it has its node,
    however deep.  With [max_depth], a directory that the filters show in a
    listing being enumerated always gets its node; the node is left
    without children when the depth of the recursive call,
    [current_depth + 1], has reached [max_depth], and otherwise the shown
    entries of the directory have their nodes below it. *)
Theorem walk_directory_depth_semantics (opts : FilterOptions) (directory : Path)
    (entries : list entry) (tree : Tree) (current_depth : Z) (fuel : nat) :
  (listing_levels entries < fuel)%nat ->
  exists nodes,
    walk_directory fuel directory entries tree opts current_depth
    = Returned (extend tree nodes)
    /\ (max_depth opts = None ->
        forall rel e,
          shown_at opts directory entries rel e ->
          exists n, node_at nodes rel n
                    /\ node_name n = name e /\ is_dir_node n = is_dir e)
    /\ (forall k nm l,
          max_depth opts = Some k -> current_depth < k ->
          In (Dir nm l) entries -> shown opts directory (Dir nm l) = true ->
          exists n,
            In n nodes
            /\ label n = label (dir_branch opts directory nm)
            /\ (k <= current_depth + 1 -> children n = [])
            /\ (current_depth + 1 < k ->
                forall c, In c l -> shown opts (directory </> nm) c = true ->
                          exists m, In m (children n) /\ node_name m = name c
                                    /\ is_dir_node m = is_dir c)).
Proof.
  intros Hfuel. exists (nodes_of opts directory current_depth entries).
  split; [now apply walk_directory_spec|]. split.
  - intros Hnone rel e Hat. apply nodes_of_complete with (1 := Hat).
    unfold depth_reached. now rewrite Hnone.
  - intros k nm l Hk Hd Hin Hs.
    assert (Hreach : forall x, depth_reached opts x = (k <=? x))
      by (intros x; unfold depth_reached; now rewrite Hk).
    exists (node_of opts directory current_depth (Dir nm l)). split.
    { apply nodes_of_In. split; [|eauto].
      rewrite Hreach. apply Z.leb_gt. lia. }
    split; [reflexivity|]. split.
    + intros Hle. apply nodes_of_leaf. rewrite Hreach. apply Z.leb_le. lia.
    + intros Hlt c Hc Hsc. rewrite node_of_children. simpl.
      exists (node_of opts (directory </> nm) (current_depth + 1) c).
      rewrite node_of_name, node_of_is_dir. repeat split.
      apply nodes_of_In. split; [|eauto].
      rewrite Hreach. apply Z.leb_gt. lia.
Qed.

(** ** The order of the nodes *)

Lemma StronglySorted_filter (A : Type) (R : A -> A -> Prop) (P : A -> bool)
    (l : list A) :
  StronglySorted R l -> StronglySorted R (filter P l).
Proof.
  induction 1 as [|x l Hl IH Hx]; simpl; [constructor|].
  destruct (P x); [|exact IH].
  constructor; [exact IH|].
  rewrite Forall_forall in *. intros y Hy. apply filter_In in Hy. now apply Hx.
Qed.

Lemma StronglySorted_map (A B : Type) (R : A -> A -> Prop) (R' : B -> B -> Prop)
    (f : A -> B) (l : list A) :
  (forall x y, In x l -> In y l -> R x y -> R' (f x) (f y)) ->
  StronglySorted R l -> StronglySorted R' (map f l).
Proof.
  intros Hf HS. induction HS as [|x l Hl IH Hx]; simpl; [constructor|].
  constructor.
  - apply IH. intros; apply Hf; simpl; auto.
  - rewrite Forall_forall in *. intros y Hy.
    apply in_map_iff in Hy. destruct Hy as (z & <- & Hz).
    apply Hf; simpl; auto.
Qed.

Lemma node_of_before (opts : FilterOptions) (directory : Path) (d : Z)
    (e1 e2 : entry) :
  is_file e1 || is_dir e1 = true -> is_file e2 || is_dir e2 = true ->
  key_le sort_key e1 e2 ->
  node_before (node_of opts directory d e1) (node_of opts directory d e2).
Proof.
  unfold key_le, sort_key, key_leb, node_before. simpl fst. simpl snd.
  rewrite !node_of_name, !node_of_is_dir.
  destruct e1, e2; simpl; try discriminate; auto.
Qed.

(** C3, as amended: in a directory that holds only regular files and
    directories, [walk_directory] emits all subdirectory nodes before all
    file nodes and, within each of the two groups, in case-insensitive
    ascending (non-decreasing) name order; and whenever no two entries of
    a directory agree in both group and lowercased name, the nodes emitted
    are the same for every order in which the filesystem enumerates the
    same entries. *)
Theorem walk_directory_order (opts : FilterOptions) (directory : Path)
    (entries : list entry) (tree : Tree) (current_depth : Z) (fuel : nat) :
  (listing_levels entries < fuel)%nat ->
  exists nodes,
    walk_directory fuel directory entries tree opts current_depth
    = Returned (extend tree nodes)
    /\ (forallb (fun e => is_file e || is_dir e) entries = true ->
        StronglySorted node_before nodes)
    /\ (forall entries',
          Permutation entries entries' -> NoDup (map sort_key entries) ->
          walk_directory fuel directory entries' tree opts current_depth
          = Returned (extend tree nodes)).
Proof.
  intros Hfuel. exists (nodes_of opts directory current_depth entries).
  split; [now apply walk_directory_spec|]. split.
  - intros Hreg. unfold nodes_of.
    destruct (depth_reached opts current_depth); [constructor|].
    rewrite forallb_forall in Hreg.
    apply StronglySorted_map with (R := key_le sort_key).
    + intros x y Hx Hy. apply filter_In in Hx, Hy.
      destruct Hx as [Hx _], Hy as [Hy _]. apply sorted_In in Hx, Hy.
      apply node_of_before; auto.
    + apply StronglySorted_filter, sorted_sorted.
  - intros entries' Hperm Hkeys.
    rewrite walk_directory_spec by now rewrite <- (listing_levels_perm Hperm).
    unfold nodes_of. now rewrite (sorted_permutation_eq sort_key Hperm Hkeys).
Qed.

(** ** Hidden entries *)

Lemma all_nodes_eq (P : Tree -> bool) (t : Tree) :
  all_nodes P t = P t && forallb (all_nodes P) (children t).
Proof. now destruct t. Qed.

Lemma shown_not_hidden (opts : FilterOptions) (directory : Path) (e : entry) :
  show_hidden opts = false -> shown opts directory e = true ->
  startswith (name e) "." = false.
Proof.
  unfold shown. intros ->. simpl.
  destruct (startswith (name e) "."); [discriminate|reflexivity].
Qed.

Lemma nodes_of_not_hidden (opts : FilterOptions) (n : nat) :
  show_hidden opts = false ->
  forall directory d entries,
    (listing_levels entries < n)%nat ->
    forallb (all_nodes (fun t => negb (startswith (node_name t) ".")))
            (nodes_of opts directory d entries) = true.
Proof.
  intros Hhid. induction n as [|n IH]; intros directory d entries Hn; [lia|].
  apply forallb_forall. intros t Ht.
  apply nodes_of_In in Ht. destruct Ht as (_ & e & He & Hs & ->).
  rewrite all_nodes_eq, node_of_name, (shown_not_hidden _ _ _ Hhid Hs). simpl.
  rewrite node_of_children.
  destruct e as [nm sz lines|nm l|nm sz]; simpl iterdir.
  - unfold nodes_of. now destruct (depth_reached opts (d + 1)).
  - apply IH. apply listing_levels_In in He. simpl in He.
    unfold listing_levels. lia.
  - unfold nodes_of. now destruct (depth_reached opts (d + 1)).
Qed.

Lemma shown_at_not_hidden (opts : FilterOptions) (directory : Path)
    (entries : list entry) (rel : list string) (e : entry) :
  show_hidden opts = false ->
  shown_at opts directory entries rel e ->
  Forall (fun nm => startswith nm "." = false) rel.
Proof.
  intros Hhid. induction 1 as [directory entries e _ Hs
                              |directory entries nm l rel e _ Hs _ IH].
  - repeat constructor. eapply shown_not_hidden; eauto.
  - constructor; [|exact IH].
    apply (shown_not_hidden _ _ _ Hhid Hs).
Qed.

(** C5: with [show_hidden] false, no node that [walk_directory] adds, at
    any depth, has a name starting with a dot, and every node stands for
    an entry reached through directories that are not dot-named, so that
    nothing below a hidden directory is walked; with [show_hidden] true,
    every entry, dot-named or not, that the ignore rules and the exclusion
    globs let through in a listing within the depth limit has its node. *)
Theorem walk_directory_hidden (opts : FilterOptions) (directory : Path)
    (entries : list entry) (tree : Tree) (current_depth : Z) (fuel : nat) :
  (listing_levels entries < fuel)%nat ->
  exists nodes,
    walk_directory fuel directory entries tree opts current_depth
    = Returned (extend tree nodes)
    /\ (show_hidden opts = false ->
        forallb (all_nodes (fun t => negb (startswith (node_name t) "."))) nodes
        = true
        /\ forall rel n,
             node_at nodes rel n ->
             Forall (fun nm => startswith nm "." = false) rel
             /\ exists e, shown_at opts directory entries rel e
                          /\ node_name n = name e)
    /\ (show_hidden opts = true ->
        depth_reached opts current_depth = false ->
        forall e,
          In e entries ->
          gitignore_skip opts (directory </> name e) = false ->
          exclude_skip opts (name e) = false ->
          exists n, In n nodes /\ node_name n = name e /\ is_dir_node n = is_dir e).
Proof.
  intros Hfuel. exists (nodes_of opts directory current_depth entries).
  split; [now apply walk_directory_spec|]. split.
  - intros Hhid. split; [now apply nodes_of_not_hidden with (n := fuel)|].
    intros rel n Hat.
    destruct (nodes_of_sound opts Hat _ _ _ eq_refl) as (_ & e & q & He & ->).
    split; [now apply (shown_at_not_hidden Hhid He)|].
    exists e. now rewrite node_of_name.
  - intros Hshow Hd e He Hg Hx.
    exists (node_of opts directory current_depth e).
    rewrite node_of_name, node_of_is_dir. repeat split.
    apply nodes_of_In. split; [exact Hd|]. exists e. repeat split; auto.
    unfold shown. now rewrite Hshow, Hg, Hx.
Qed.

(** ** Ignore rules *)

Lemma visited_incl (fs : entry) (ps : list Path) (p : Path) :
  In p (visited fs ps) -> In p ps.
Proof.
  induction ps as [|q ps IH]; simpl; [tauto|].
  intros [E|H]; [now left|].
  destruct (has_git fs q); [contradiction|]. right. now apply IH.
Qed.

Lemma load_without_gitignore (fs : entry) (directory : Path) :
  (forall p, In p (ancestors directory) ->
             path_exists fs (p </> ".gitignore") = false) ->
  load_gitignore_patterns (S (List.length directory)) fs directory
  = Returned (None, None).
Proof.
  intros Hnone.
  assert (Hlook : forall p, In p (visited fs (ancestors directory)) ->
                            lookup fs (p </> ".gitignore") = None).
  { intros p Hp. apply visited_incl, Hnone in Hp. unfold path_exists in Hp.
    now destruct (lookup fs (p </> ".gitignore")). }
  unfold load_gitignore_patterns. rewrite gitignore_loop_spec; [|lia|].
  - replace (flat_map (gitignore_lines fs) (visited fs (ancestors directory)))
      with (@nil string); [now destruct (find _ _)|].
    symmetry. induction (visited fs (ancestors directory)) as [|p ps IH];
      [reflexivity|].
    simpl. unfold gitignore_lines at 1. rewrite Hlook by now left.
    apply IH. intros; apply Hlook; now right.
  - apply forallb_forall. intros p Hp. unfold gitignore_readable.
    now rewrite Hlook.
Qed.

(** C6: if nothing named [.gitignore] exists in the start directory or
    any of its ancestors up to the filesystem root, ignore resolution
    returns (absent, absent) and the run with the gitignore flag on is the
    run with the flag off: same exit code, same error output, same tree. *)
Theorem main_gitignore_noop (fs : entry) (args : Cli.Args) :
  (forall p, In p (ancestors (resolve (Cli.directory args))) ->
             path_exists fs (p </> ".gitignore") = false) ->
  load_gitignore_patterns (S (List.length (resolve (Cli.directory args)))) fs
    (resolve (Cli.directory args)) = Returned (None, None)
  /\ main fs (Cli.with_gitignore true args) = main fs (Cli.with_gitignore false args).
Proof.
  intros Hnone. pose proof (load_without_gitignore fs _ Hnone) as Hload.
  split; [exact Hload|].
  unfold main. simpl. now rewrite Hload.
Qed.

Lemma gitignore_skip_match (opts : FilterOptions) (path rel : Path)
    (spec : PathSpec) (root : Path) :
  gitignore_spec opts = Some spec -> git_root opts = Some root ->
  relative_to path root = Some rel -> match_file spec (str_rel rel) = true ->
  gitignore_skip opts path = true.
Proof.
  intros Hs Hr Hrel Hm. unfold gitignore_skip. rewrite Hs, Hr, Hrel.
  now rewrite (match_file_bool _ _ Hm).
Qed.

Lemma gitignore_skip_outside (opts : FilterOptions) (path : Path) (root : Path) :
  git_root opts = Some root -> relative_to path root = None ->
  gitignore_skip opts path = false.
Proof.
  intros Hr Hrel. unfold gitignore_skip. rewrite Hr, Hrel.
  destruct (gitignore_spec opts) as [spec|]; [|reflexivity].
  now destruct (spec_bool spec).
Qed.

(** C8: with a rule set and an ignore root, the walk returns, and an entry
    whose path is not under the ignore root is left to the other two
    filters alone: it has its node exactly when the hidden-file check and
    the exclusion globs let it through.  An entry whose path relative to
    the ignore root matches the rule set has no node. *)
Theorem walk_directory_ignore_check (opts : FilterOptions) (directory : Path)
    (entries : list entry) (tree : Tree) (current_depth : Z) (fuel : nat)
    (spec : PathSpec) (root : Path) :
  gitignore_spec opts = Some spec -> git_root opts = Some root ->
  (listing_levels entries < fuel)%nat ->
  exists nodes,
    walk_directory fuel directory entries tree opts current_depth
    = Returned (extend tree nodes)
    /\ (forall e,
          In e entries -> relative_to (directory </> name e) root = None ->
          depth_reached opts current_depth = false ->
          ((exists n, In n nodes /\ node_name n = name e /\ is_dir_node n = is_dir e)
           <-> negb (show_hidden opts) && startswith (name e) "." = false
               /\ exclude_skip opts (name e) = false))
    /\ (forall e rel,
          In e entries -> relative_to (directory </> name e) root = Some rel ->
          match_file spec (str_rel rel) = true ->
          ~ exists n, In n nodes /\ node_name n = name e).
Proof.
  intros Hspec Hroot Hfuel. exists (nodes_of opts directory current_depth entries).
  split; [now apply walk_directory_spec|]. split.
  - intros e He Hrel Hd. split.
    + intros (n & Hn & Hname & _). apply nodes_of_In in Hn.
      destruct Hn as (_ & e' & _ & Hs & ->). rewrite node_of_name in Hname.
      unfold shown in Hs. rewrite Hname in Hs.
      destruct (negb (show_hidden opts) && startswith (name e) "."); [discriminate|].
      destruct (gitignore_skip opts (directory </> name e)); [discriminate|].
      now destruct (exclude_skip opts (name e)).
    + intros [Hh Hx]. exists (node_of opts directory current_depth e).
      rewrite node_of_name, node_of_is_dir. repeat split.
      apply nodes_of_In. split; [exact Hd|]. exists e. repeat split; auto.
      unfold shown. now rewrite Hh, Hx, (gitignore_skip_outside _ _ Hroot Hrel).
  - intros e rel He Hrel Hm (n & Hn & Hname). apply nodes_of_In in Hn.
    destruct Hn as (_ & e' & _ & Hs & ->). rewrite node_of_name in Hname.
    unfold shown in Hs. rewrite Hname in Hs.
    rewrite (gitignore_skip_match _ _ Hspec Hroot Hrel Hm) in Hs.
    now rewrite andb_false_r in Hs.
Qed.

(** ** Exclusion globs *)

Lemma exclude_skip_iff (opts : FilterOptions) (patterns : list string) (nm : string) :
  exclude_patterns opts = Some patterns ->
  exclude_skip opts nm = true
  <-> exists pattern, In pattern patterns /\ fnmatch nm pattern = true.
Proof.
  intros Hp. unfold exclude_skip. rewrite Hp.
  destruct patterns as [|p ps].
  - split; [discriminate|]. now intros (? & [] & _).
  - apply existsb_exists.
Qed.

(** C7: with exclusion patterns configured, an entry is dropped by the
    exclusion check exactly when its bare name matches at least one of the
    patterns; an entry so dropped has no node, and an entry that matches
    none and passes the other checks has one; and two patterns together
    drop what either of them drops alone. *)
Theorem walk_directory_exclusion (opts : FilterOptions) (directory : Path)
    (entries : list entry) (tree : Tree) (current_depth : Z) (fuel : nat)
    (patterns : list string) :
  exclude_patterns opts = Some patterns ->
  (listing_levels entries < fuel)%nat ->
  exists nodes,
    walk_directory fuel directory entries tree opts current_depth
    = Returned (extend tree nodes)
    /\ (forall e,
          exclude_skip opts (name e) = true
          <-> exists pattern, In pattern patterns /\ fnmatch (name e) pattern = true)
    /\ (forall e,
          In e entries ->
          (exists pattern, In pattern patterns /\ fnmatch (name e) pattern = true) ->
          ~ exists n, In n nodes /\ node_name n = name e)
    /\ (forall e,
          In e entries ->
          ~ (exists pattern, In pattern patterns /\ fnmatch (name e) pattern = true) ->
          depth_reached opts current_depth = false ->
          negb (show_hidden opts) && startswith (name e) "." = false ->
          gitignore_skip opts (directory </> name e) = false ->
          exists n, In n nodes /\ node_name n = name e /\ is_dir_node n = is_dir e)
    /\ (forall p1 p2 nm,
          exclude_skip (set_exclude (Some [p1; p2]) opts) nm
          = exclude_skip (set_exclude (Some [p1]) opts) nm
            || exclude_skip (set_exclude (Some [p2]) opts) nm).
Proof.
  intros Hp Hfuel. exists (nodes_of opts directory current_depth entries).
  split; [now apply walk_directory_spec|]. repeat split.
  - now apply exclude_skip_iff.
  - now apply exclude_skip_iff.
  - intros e He Hm (n & Hn & Hname). apply nodes_of_In in Hn.
    destruct Hn as (_ & e' & _ & Hs & ->). rewrite node_of_name in Hname.
    apply (exclude_skip_iff opts (name e) Hp) in Hm.
    unfold shown in Hs. rewrite Hname, Hm in Hs.
    now rewrite andb_false_r in Hs.
  - intros e He Hm Hd Hh Hg.
    exists (node_of opts directory current_depth e).
    rewrite node_of_name, node_of_is_dir. repeat split.
    apply nodes_of_In. split; [exact Hd|]. exists e. repeat split; auto.
    unfold shown. rewrite Hh, Hg.
    destruct (exclude_skip opts (name e)) eqn:Hx; [|reflexivity].
    contradiction Hm. now apply (exclude_skip_iff opts (name e) Hp).
  - intros p1 p2 nm. unfold exclude_skip, set_exclude. simpl.
    now rewrite !orb_false_r.
Qed.

(** ** Invalid targets *)

(** [main] always comes to an end: the fuel it gives to the walk up and to
    the walk down is enough. *)
Lemma main_terminates (fs : entry) (args : Cli.Args) : main fs args <> OutOfFuel.
Proof.
  unfold main.
  destruct (negb (path_exists fs (resolve (Cli.directory args)))); [discriminate|].
  destruct (negb (path_is_dir fs (resolve (Cli.directory args)))); [discriminate|].
  destruct (Cli.gitignore args).
  - unfold load_gitignore_patterns.
    pose proof (gitignore_loop_total fs (resolve (Cli.directory args))
                  (resolve (Cli.directory args)) []
                  (Nat.lt_succ_diag_r _)) as H.
    destruct (gitignore_loop _ fs _ [] _ None) as [[[|line patterns] root]| |];
      cbn [bind]; try discriminate; try contradiction;
      rewrite walk_directory_spec by lia; discriminate.
  - cbn [bind]. rewrite walk_directory_spec by lia. discriminate.
Qed.

(** C9: on a target that does not exist, the command exits with code 1,
    having written "Error: Directory '<path>' does not exist." to standard
    error and no tree; on a target that exists and is not a directory, it
    exits with code 1, having written "Error: '<path>' is not a
    directory." to standard error and no tree. *)
Theorem main_invalid_target (fs : entry) (args : Cli.Args) :
  (path_exists fs (resolve (Cli.directory args)) = false ->
   main fs args
   = Returned {| Cli.exit_code := 1;
                 Cli.stderr := [("Error: Directory '" ++ Cli.directory args
                                  ++ "' does not exist.")%string];
                 Cli.stdout := [] |})
  /\ (path_exists fs (resolve (Cli.directory args)) = true ->
      path_is_dir fs (resolve (Cli.directory args)) = false ->
      main fs args
      = Returned {| Cli.exit_code := 1;
                    Cli.stderr := [("Error: '" ++ Cli.directory args
                                     ++ "' is not a directory.")%string];
                    Cli.stdout := [] |}).
Proof.
  unfold main. split.
  - now intros ->.
  - now intros -> ->.
Qed.

End Properties.

(** * Further properties of the walk and of the command *)

Section Further.

Context {lib : Collaborators}.

(** ** Filtering and rearranging *)

Lemma filter_permutation (A : Type) (P : A -> bool) (l1 l2 : list A) :
  Permutation l1 l2 -> Permutation (filter P l1) (filter P l2).
Proof.
  induction 1 as [|x l1 l2 _ IH|x y l|l1 l2 l3 _ IH1 _ IH2]; simpl.
  - constructor.
  - destruct (P x); [now constructor|exact IH].
  - destruct (P x), (P y); try reflexivity. apply perm_swap.
  - now transitivity (filter P l2).
Qed.

(** ** Entries with one sort key *)

Lemma filter_split (A : Type) (P : A -> bool) (l : list A) :
  forall a x b,
    filter P l = a ++ x :: b ->
    exists l1 l2, l = l1 ++ x :: l2 /\ filter P l1 = a /\ filter P l2 = b.
Proof.
  induction l as [|y l IH]; intros a x b H; simpl in H.
  - now destruct a.
  - destruct (P y) eqn:Py.
    + destruct a as [|a0 a]; simpl in H; injection H as -> H.
      * exists [], l. auto.
      * destruct (IH _ _ _ H) as (l1 & l2 & -> & <- & <-).
        exists (a0 :: l1), l2. simpl. now rewrite Py.
    + destruct (IH _ _ _ H) as (l1 & l2 & -> & <- & <-).
      exists (y :: l1), l2. simpl. now rewrite Py.
Qed.

(** X1: two shown entries with the same sort key, that is of the same
    group and with names equal up to case, get their nodes in the order in
    which the filesystem enumerates them. *)
Theorem walk_directory_stable (opts : FilterOptions) (directory : Path)
    (tree : Tree) (current_depth : Z) (fuel : nat)
    (l1 l2 l3 : list entry) (e1 e2 : entry) :
  (listing_levels (l1 ++ e1 :: l2 ++ e2 :: l3) < fuel)%nat ->
  depth_reached opts current_depth = false ->
  sort_key e1 = sort_key e2 ->
  shown opts directory e1 = true -> shown opts directory e2 = true ->
  exists n1 a n2 b n3,
    walk_directory fuel directory (l1 ++ e1 :: l2 ++ e2 :: l3) tree opts current_depth
    = Returned (extend tree (n1 ++ a :: n2 ++ b :: n3))
    /\ node_name a = name e1 /\ is_dir_node a = is_dir e1
    /\ node_name b = name e2 /\ is_dir_node b = is_dir e2.
Proof.
  intros Hfuel Hd Hkey Hs1 Hs2.
  set (entries := l1 ++ e1 :: l2 ++ e2 :: l3) in *.
  set (same := fun y => key_leb (sort_key y) (sort_key e1)
                        && key_leb (sort_key e1) (sort_key y)).
  assert (Hsame1 : same e1 = true) by (unfold same; now rewrite key_leb_refl).
  assert (Hsame2 : same e2 = true)
    by (unfold same; now rewrite <- Hkey, key_leb_refl).
  pose proof (sorted_stable sort_key (sort_key e1) entries) as Hst.
  fold same in Hst. unfold entries in Hst at 2.
  rewrite filter_app in Hst. simpl in Hst. rewrite Hsame1 in Hst.
  rewrite filter_app in Hst. simpl in Hst. rewrite Hsame2 in Hst.
  destruct (filter_split _ _ _ _ _ Hst) as (s1 & rest & Hsorted & _ & Hrest).
  destruct (filter_split _ _ _ _ _ Hrest) as (s2 & s3 & -> & _ & _).
  exists (map (node_of opts directory current_depth) (filter (shown opts directory) s1)),
         (node_of opts directory current_depth e1),
         (map (node_of opts directory current_depth) (filter (shown opts directory) s2)),
         (node_of opts directory current_depth e2),
         (map (node_of opts directory current_depth) (filter (shown opts directory) s3)).
  rewrite !node_of_name, !node_of_is_dir. repeat split.
  rewrite walk_directory_spec by assumption. unfold nodes_of.
  rewrite Hd, Hsorted.
  rewrite filter_app. simpl. rewrite Hs1.
  rewrite filter_app. simpl. rewrite Hs2.
  rewrite map_app. simpl. now rewrite map_app.
Qed.

(** ** A listing that shows nothing *)

Lemma extend_same (tree : Tree) (nodes : list Tree) :
  extend tree nodes = tree -> nodes = [].
Proof.
  destruct tree as [l s g c]. unfold extend. simpl. intros H.
  injection H as H. rewrite <- (app_nil_r c) in H at 2.
  now apply app_inv_head in H.
Qed.

(** X2: [walk_directory] returns the tree as it was given exactly when
    the depth limit is reached or no entry of the listing passes the
    filters, as for an empty directory. *)
Theorem walk_directory_nothing_shown (opts : FilterOptions) (directory : Path)
    (entries : list entry) (tree : Tree) (current_depth : Z) (fuel : nat) :
  (listing_levels entries < fuel)%nat ->
  walk_directory fuel directory entries tree opts current_depth = Returned tree
  <-> depth_reached opts current_depth = true
      \/ forall e, In e entries -> shown opts directory e = false.
Proof.
  intros Hfuel. rewrite walk_directory_spec by assumption. split.
  - intros H. injection H as H. apply extend_same in H.
    destruct (depth_reached opts current_depth) eqn:Hd; [now left|right].
    intros e He. destruct (shown opts directory e) eqn:Hs; [|reflexivity].
    assert (Hin : In (node_of opts directory current_depth e)
                     (nodes_of opts directory current_depth entries))
      by (apply nodes_of_In; eauto).
    rewrite H in Hin. contradiction.
  - intros H. replace (nodes_of opts directory current_depth entries) with (@nil Tree);
      [now rewrite extend_nil|].
    symmetry. destruct (nodes_of opts directory current_depth entries) as [|n ns] eqn:E;
      [reflexivity|].
    assert (Hin : In n (nodes_of opts directory current_depth entries))
      by (rewrite E; now left).
    apply nodes_of_In in Hin. destruct Hin as (Hd & e & He & Hs & _).
    destruct H as [H|H]; [congruence|]. rewrite (H e He) in Hs. discriminate.
Qed.

(** ** What a node shows *)

Lemma nodes_of_sound_path (opts : FilterOptions) (nodes : list Tree)
    (rel : list string) (n : Tree) :
  node_at nodes rel n ->
  forall directory entries d,
    nodes = nodes_of opts directory d entries ->
    exists e pre,
      rel = pre ++ [name e]
      /\ shown_at opts directory entries rel e
      /\ shown opts (directory ++ pre) e = true
      /\ n = node_of opts (directory ++ pre) (d + depth_of rel) e.
Proof.
  induction 1 as [nodes n Hin|nodes m rel n Hin Hat IH];
    intros directory entries d ->.
  - apply nodes_of_In in Hin. destruct Hin as (Hd & e & He & Hs & ->).
    exists e, []. rewrite node_of_name, app_nil_r.
    replace (d + depth_of [name e]) with d by (unfold depth_of; simpl; lia).
    repeat split; auto. now constructor.
  - apply nodes_of_In in Hin. destruct Hin as (Hd & em & Hem & Hs & ->).
    rewrite node_of_children in IH.
    destruct (IH _ _ _ eq_refl) as (e & pre & -> & He & Hse & ->).
    exists e, (name em :: pre). rewrite node_of_name, depth_of_cons.
    unfold joinpath in *. rewrite <- app_assoc in Hse |- *. simpl in Hse |- *.
    replace (d + (depth_of (pre ++ [name e]) + 1))
      with (d + 1 + depth_of (pre ++ [name e])) by lia.
    repeat split; auto.
    destruct em as [nm sz lines|nm l|nm sz]; simpl in He;
      try (now apply shown_at_nil in He).
    now apply shown_below with (l := l).
Qed.

(** X3: every node the walk adds, at any depth, shows the entry found at
    its relative path: a directory node carries the directory's name and
    the style [dim] exactly when the name starts with two underscores; any
    other node carries the entry's name, its size, the script icon exactly
    when the suffix is [.py], no style and no children; and the link of a
    node is the entry's full path when links are on and absent
    otherwise. *)
Theorem walk_directory_decoration (opts : FilterOptions) (directory : Path)
    (entries : list entry) (tree : Tree) (current_depth : Z) (fuel : nat) :
  (listing_levels entries < fuel)%nat ->
  exists nodes,
    walk_directory fuel directory entries tree opts current_depth
    = Returned (extend tree nodes)
    /\ forall rel n,
         node_at nodes rel n ->
         node_link n = (if show_links opts then Some (directory ++ rel) else None)
         /\ exists e,
              shown_at opts directory entries rel e
              /\ match e with
                 | Dir nm _ =>
                     label n = DirText (node_link n) nm
                     /\ style n = Some (if startswith nm "__" then "dim" else "")
                     /\ guide_style n = style n
                 | File nm file_size _ | Special nm file_size =>
                     label n = FileText (if String.eqb (suffix nm) ".py"
                                         then Snake else Page)
                                        nm (node_link n) file_size
                     /\ style n = None /\ guide_style n = None
                     /\ children n = []
                 end.
Proof.
  intros Hfuel. exists (nodes_of opts directory current_depth entries).
  split; [now apply walk_directory_spec|]. intros rel n Hat.
  destruct (nodes_of_sound_path opts Hat _ _ _ eq_refl)
    as (e & pre & -> & He & _ & ->).
  assert (Hlink : node_link (node_of opts (directory ++ pre)
                               (current_depth + depth_of (pre ++ [name e])) e)
                  = if show_links opts then Some (directory ++ pre ++ [name e])
                    else None).
  { destruct e; simpl; unfold node_link; simpl; unfold joinpath;
      now rewrite <- app_assoc. }
  split; [exact Hlink|]. exists e. split; [exact He|].
  destruct e as [nm sz lines|nm l|nm sz]; simpl; auto.
Qed.

(** ** The filters at every depth *)

Lemma shown_at_names (opts : FilterOptions) (P : string -> Prop)
    (directory : Path) (entries : list entry) (rel : list string) (e : entry) :
  (forall d x, shown opts d x = true -> P (name x)) ->
  shown_at opts directory entries rel e -> Forall P rel.
Proof.
  intros HP. induction 1 as [directory entries e _ Hs
                            |directory entries nm l rel e _ Hs _ IH].
  - repeat constructor. eapply HP; eauto.
  - constructor; [|exact IH]. apply (HP _ _ Hs).
Qed.

(** X4: the exclusion patterns hold at every depth: no node of the tree,
    and no directory on the way to it, has a name that matches one of the
    patterns. *)
Theorem walk_directory_exclusion_everywhere (opts : FilterOptions)
    (directory : Path) (entries : list entry) (tree : Tree) (current_depth : Z)
    (fuel : nat) (patterns : list string) :
  exclude_patterns opts = Some patterns ->
  (listing_levels entries < fuel)%nat ->
  exists nodes,
    walk_directory fuel directory entries tree opts current_depth
    = Returned (extend tree nodes)
    /\ forall rel n,
         node_at nodes rel n ->
         forall nm pattern,
           In nm rel -> In pattern patterns -> fnmatch nm pattern = false.
Proof.
  intros Hp Hfuel. exists (nodes_of opts directory current_depth entries).
  split; [now apply walk_directory_spec|]. intros rel n Hat nm pattern Hnm Hpat.
  destruct (nodes_of_sound_path opts Hat _ _ _ eq_refl) as (e & _ & _ & He & _).
  apply shown_at_names
    with (P := fun nm => forall pattern, In pattern patterns ->
                                         fnmatch nm pattern = false) in He.
  - rewrite Forall_forall in He. now apply He.
  - intros d x Hs q Hq. unfold shown in Hs.
    destruct (exclude_skip opts (name x)) eqn:Hx;
      [now rewrite andb_false_r in Hs|].
    destruct (fnmatch (name x) q) eqn:Hm; [|reflexivity].
    assert (exclude_skip opts (name x) = true)
      by (apply (exclude_skip_iff opts (name x) Hp); eauto).
    congruence.
Qed.

Lemma relative_to_app (root rest : Path) : relative_to (root ++ rest) root = Some rest.
Proof.
  induction root as [|c root IH]; simpl; [now destruct rest|].
  now rewrite String.eqb_refl.
Qed.

Lemma nodes_of_not_ignored (opts : FilterOptions) (spec : PathSpec)
    (root below : Path) (entries : list entry) (d : Z) (rel : list string) (n : Tree) :
  gitignore_spec opts = Some spec -> git_root opts = Some root ->
  node_at (nodes_of opts (root ++ below) d entries) rel n ->
  match_file spec (str_rel (below ++ rel)) = false.
Proof.
  intros Hspec Hroot Hat.
  destruct (nodes_of_sound_path opts Hat _ _ _ eq_refl) as (e & pre & -> & _ & Hs & _).
  unfold shown in Hs.
  destruct (gitignore_skip opts (((root ++ below) ++ pre) </> name e)) eqn:Hg;
    [simpl in Hs; rewrite andb_false_r in Hs; discriminate|].
  unfold gitignore_skip in Hg. rewrite Hspec, Hroot in Hg.
  replace (((root ++ below) ++ pre) </> name e)
    with (root ++ (below ++ pre ++ [name e])) in Hg
    by (unfold joinpath; now rewrite !app_assoc).
  rewrite relative_to_app in Hg.
  destruct (match_file spec (str_rel (below ++ pre ++ [name e]))) eqn:Hm;
    [|reflexivity].
  now rewrite (match_file_bool _ _ Hm) in Hg.
Qed.

(** X5: when the walked directory lies at or below the ignore root, the
    rule set holds at every depth: no node of the tree has a path, taken
    relative to the ignore root, that the rule set matches. *)
Theorem walk_directory_ignored_nowhere (opts : FilterOptions)
    (spec : PathSpec) (root below : Path) (entries : list entry) (tree : Tree)
    (current_depth : Z) (fuel : nat) :
  gitignore_spec opts = Some spec -> git_root opts = Some root ->
  (listing_levels entries < fuel)%nat ->
  exists nodes,
    walk_directory fuel (root ++ below) entries tree opts current_depth
    = Returned (extend tree nodes)
    /\ forall rel n,
         node_at nodes rel n ->
         relative_to ((root ++ below) ++ rel) root = Some (below ++ rel)
         /\ match_file spec (str_rel (below ++ rel)) = false.
Proof.
  intros Hspec Hroot Hfuel.
  exists (nodes_of opts (root ++ below) current_depth entries).
  split; [now apply walk_directory_spec|]. intros rel n Hat. split.
  - rewrite <- app_assoc. apply relative_to_app.
  - eapply nodes_of_not_ignored; eauto.
Qed.

(** ** Options that make no difference *)

Lemma shown_congruence (opts1 opts2 : FilterOptions) (directory : Path) (e : entry) :
  exclude_patterns opts1 = exclude_patterns opts2 ->
  show_hidden opts1 = show_hidden opts2 ->
  gitignore_skip opts1 (directory ++ [name e])
  = gitignore_skip opts2 (directory ++ [name e]) ->
  shown opts1 directory e = shown opts2 directory e.
Proof.
  intros Hx Hh Hg. unfold shown, exclude_skip, joinpath.
  now rewrite Hx, Hh, Hg.
Qed.

Lemma nodes_of_congruence (opts1 opts2 : FilterOptions) (n : nat) :
  exclude_patterns opts1 = exclude_patterns opts2 ->
  show_links opts1 = show_links opts2 ->
  show_hidden opts1 = show_hidden opts2 ->
  forall directory d1 d2 entries,
    (listing_levels entries < n)%nat ->
    (forall rel, gitignore_skip opts1 (directory ++ rel)
                 = gitignore_skip opts2 (directory ++ rel)) ->
    (forall x, 0 <= x -> depth_reached opts1 (d1 + x) = depth_reached opts2 (d2 + x)) ->
    nodes_of opts1 directory d1 entries = nodes_of opts2 directory d2 entries.
Proof.
  intros Hx Hl Hh. induction n as [|n IH];
    intros directory d1 d2 entries Hn Hg Hd; [lia|].
  unfold nodes_of.
  replace (depth_reached opts1 d1) with (depth_reached opts2 d2)
    by (symmetry; rewrite <- (Z.add_0_r d1), <- (Z.add_0_r d2); apply Hd; lia).
  destruct (depth_reached opts2 d2); [reflexivity|].
  rewrite (filter_ext (shown opts1 directory) (shown opts2 directory))
    by (intros e; now apply shown_congruence).
  apply map_ext_in. intros e He. apply filter_In in He. destruct He as [He _].
  apply sorted_In in He.
  destruct e as [nm sz lines|nm l|nm sz].
  - simpl. unfold file_node. now rewrite Hl.
  - rewrite !node_of_Dir. unfold dir_branch at 1 2. rewrite Hl. f_equal.
    apply IH.
    + apply listing_levels_In in He. simpl in He. unfold listing_levels. lia.
    + intros rel. unfold joinpath. rewrite <- app_assoc. apply Hg.
    + intros x Hx0. replace (d1 + 1 + x) with (d1 + (x + 1)) by lia.
      replace (d2 + 1 + x) with (d2 + (x + 1)) by lia. apply Hd. lia.
  - simpl. unfold file_node. now rewrite Hl.
Qed.

Lemma gitignore_skip_unguarded (opts : FilterOptions) (path : Path) :
  ignore_guard opts = false -> gitignore_skip opts path = false.
Proof.
  unfold ignore_guard, gitignore_skip.
  destruct (gitignore_spec opts) as [spec|], (git_root opts) as [root|];
    try reflexivity.
  now intros ->.
Qed.

(** X6: a rule set without patterns, like a missing rule set or a missing
    ignore root, switches the ignore check off: the walk gives the tree it
    gives without rule set and ignore root, at every depth. *)
Theorem walk_directory_empty_rules (opts : FilterOptions) (directory : Path)
    (entries : list entry) (tree : Tree) (current_depth : Z) (fuel : nat) :
  ignore_guard opts = false ->
  (listing_levels entries < fuel)%nat ->
  walk_directory fuel directory entries tree opts current_depth
  = walk_directory fuel directory entries tree (without_gitignore opts) current_depth.
Proof.
  intros Hguard Hfuel. rewrite !walk_directory_spec by assumption.
  do 2 f_equal. apply nodes_of_congruence with (n := fuel); auto.
  intros rel. now rewrite (gitignore_skip_unguarded _ _ Hguard).
Qed.

Lemma relative_to_apart (path root rest : Path) :
  relative_to path root = None -> relative_to root path = None ->
  relative_to (path ++ rest) root = None.
Proof.
  revert path. induction root as [|o root IH]; intros [|c path]; simpl;
    try discriminate.
  rewrite (String.eqb_sym c o).
  destruct (String.eqb o c); [apply IH|reflexivity].
Qed.

(** X7: when neither the walked directory nor the ignore root lies below
    the other, no path of the walk can be taken relative to the ignore
    root, and the walk gives the tree it gives without rule set and ignore
    root, at every depth. *)
Theorem walk_directory_foreign_root (opts : FilterOptions) (directory root : Path)
    (entries : list entry) (tree : Tree) (current_depth : Z) (fuel : nat) :
  git_root opts = Some root ->
  relative_to directory root = None -> relative_to root directory = None ->
  (listing_levels entries < fuel)%nat ->
  walk_directory fuel directory entries tree opts current_depth
  = walk_directory fuel directory entries tree (without_gitignore opts) current_depth.
Proof.
  intros Hroot H1 H2 Hfuel. rewrite !walk_directory_spec by assumption.
  do 2 f_equal. apply nodes_of_congruence with (n := fuel); auto.
  intros rel.
  rewrite (gitignore_skip_outside _ _ Hroot (relative_to_apart _ _ rel H1 H2)).
  reflexivity.
Qed.

(** X8: only the distance to the limit counts: a walk at depth
    [current_depth] under the limit [k] gives the tree that a walk started
    at depth 0 gives under the limit [k - current_depth]. *)
Theorem walk_directory_depth_shift (opts : FilterOptions) (directory : Path)
    (entries : list entry) (tree : Tree) (current_depth k : Z) (fuel : nat) :
  max_depth opts = Some k ->
  (listing_levels entries < fuel)%nat ->
  walk_directory fuel directory entries tree opts current_depth
  = walk_directory fuel directory entries tree
      (set_max_depth (Some (k - current_depth)) opts) 0.
Proof.
  intros Hk Hfuel. rewrite !walk_directory_spec by assumption.
  do 2 f_equal. apply nodes_of_congruence with (n := fuel); auto.
  intros x _. unfold depth_reached. rewrite Hk. simpl.
  destruct (k <=? current_depth + x) eqn:E1, (k - current_depth <=? 0 + x) eqn:E2;
    try reflexivity; rewrite ?Z.leb_le, ?Z.leb_gt in *; lia.
Qed.

(** ** The ignore root and the start directory *)

Lemma ancestors_self (p : Path) : In p (ancestors p).
Proof. unfold ancestors. destruct (List.length p); simpl; auto. Qed.

Lemma ancestors_from_prefix (n : nat) :
  forall p r, In r (ancestors_from n p) -> exists below, p = r ++ below.
Proof.
  induction n as [|n IH]; intros p r; simpl.
  - intros [<-|[]]. exists []. now rewrite app_nil_r.
  - intros [<-|Hin]; [exists []; now rewrite app_nil_r|].
    destruct (IH _ _ Hin) as [below Hb].
    destruct (list_eq_dec string_dec p []) as [->|Hp].
    + exists below. exact Hb.
    + exists (below ++ [last p ""]).
      rewrite (app_removelast_last "" Hp) at 1. fold (parent p).
      now rewrite Hb, app_assoc.
Qed.

Lemma gitignore_loop_root (fs : entry) (directory : Path) (fuel : nat) :
  forall current_dir patterns collected root,
    gitignore_loop fuel fs directory patterns current_dir None
    = Returned (collected, Some root) ->
    In root (ancestors current_dir) \/ root = directory.
Proof.
  induction fuel as [|fuel IH]; intros current_dir patterns collected root H;
    [discriminate|].
  simpl in H.
  assert (Hstep : forall ps,
            (if path_exists fs (current_dir </> ".git")
             then Returned (ps, Some current_dir)
             else if path_eqb (parent current_dir) current_dir
                  then match ps with
                       | [] => Returned (ps, None)
                       | _ :: _ => Returned (ps, Some directory)
                       end
                  else gitignore_loop fuel fs directory ps (parent current_dir) None)
            = Returned (collected, Some root) ->
            In root (ancestors current_dir) \/ root = directory).
  { intros ps Hps.
    destruct (path_exists fs (current_dir </> ".git")).
    - injection Hps as _ <-. left. apply ancestors_self.
    - destruct (path_eqb (parent current_dir) current_dir) eqn:E.
      + destruct ps; [discriminate|]. injection Hps as _ <-. now right.
      + destruct (IH _ _ _ _ Hps) as [Hin|Heq]; [left|now right].
        assert (Hdir : current_dir <> [])
          by (intros Hnil; apply parent_eqb in Hnil; congruence).
        rewrite (ancestors_step Hdir). now right. }
  destruct (path_exists fs (current_dir </> ".gitignore"));
    [destruct (read_lines fs (current_dir </> ".gitignore")) as [lines| |]|];
    simpl in H; try discriminate; eapply Hstep; exact H.
Qed.

(** X9: an ignore root that [load_gitignore_patterns] returns is the
    start directory or one of its ancestors, so the path of anything at or
    below the start directory can be taken relative to it: in a run of the
    command, [relative_to] never fails. *)
Theorem load_gitignore_patterns_root_above (fs : entry) (directory : Path)
    (fuel : nat) (spec : option PathSpec) (root : Path) :
  load_gitignore_patterns fuel fs directory = Returned (spec, Some root) ->
  exists below,
    directory = root ++ below
    /\ forall rest, relative_to (directory ++ rest) root = Some (below ++ rest).
Proof.
  unfold load_gitignore_patterns. intros H.
  destruct (gitignore_loop fuel fs directory [] directory None)
    as [[[|line patterns] [r|]]| |] eqn:Hloop; simpl in H; try discriminate.
  injection H as _ <-.
  assert (Hb : exists below, directory = r ++ below).
  { destruct (gitignore_loop_root _ _ _ _ _ Hloop) as [Hin|Heq].
    - now apply ancestors_from_prefix in Hin.
    - subst r. exists []. now rewrite app_nil_r. }
  destruct Hb as [below Hb]. exists below. split; [exact Hb|].
  intros rest. rewrite Hb at 1. rewrite <- app_assoc. apply relative_to_app.
Qed.

(** ** A [.gitignore] that cannot be read *)

Lemma unreadable_raises (fs : entry) (p : Path) :
  gitignore_readable fs p = false ->
  path_exists fs (p </> ".gitignore") = true
  /\ exists e, read_lines fs (p </> ".gitignore") = Raised e.
Proof.
  unfold gitignore_readable, path_exists, read_lines.
  destruct (lookup fs (p </> ".gitignore")) as [[| |]|]; try discriminate; eauto.
Qed.

Lemma gitignore_loop_unreadable (fs : entry) (directory : Path) (fuel : nat) :
  forall current_dir patterns ps1 p ps2,
    (List.length current_dir < fuel)%nat ->
    visited fs (ancestors current_dir) = ps1 ++ p :: ps2 ->
    forallb (gitignore_readable fs) ps1 = true ->
    gitignore_readable fs p = false ->
    exists e,
      read_lines fs (p </> ".gitignore") = Raised e
      /\ gitignore_loop fuel fs directory patterns current_dir None = Raised e.
Proof.
  induction fuel as [|fuel IH];
    intros current_dir patterns ps1 p ps2 Hlen Hvis Hread Hbad; [lia|].
  assert (Hanc : exists rest,
            ancestors current_dir = current_dir :: rest
            /\ (current_dir = [] -> rest = [])
            /\ (current_dir <> [] -> rest = ancestors (parent current_dir))).
  { destruct (list_eq_dec string_dec current_dir []) as [->|Hdir].
    - exists []. repeat split; auto. congruence.
    - exists (ancestors (parent current_dir)).
      rewrite (ancestors_step Hdir). repeat split; auto. congruence. }
  destruct Hanc as (rest & Hanc & Hroot & Hstep). rewrite Hanc in Hvis.
  simpl in Hvis. fold (has_git fs current_dir) in Hvis.
  destruct ps1 as [|p0 ps1]; simpl in Hvis; injection Hvis as <- Hvis.
  - destruct (unreadable_raises _ _ Hbad) as (Hex & e & He).
    exists e. split; [exact He|]. simpl. now rewrite Hex, He.
  - simpl in Hread. apply andb_true_iff in Hread. destruct Hread as [Hp0 Hread].
    simpl gitignore_loop. rewrite (read_gitignore _ _ _ Hp0). simpl.
    fold (has_git fs current_dir).
    destruct (has_git fs current_dir); [now destruct ps1|].
    destruct (list_eq_dec string_dec current_dir []) as [Hnil|Hdir].
    { rewrite (Hroot Hnil) in Hvis. now destruct ps1. }
    destruct (path_eqb (parent current_dir) current_dir) eqn:E.
    { apply parent_eqb in E. contradiction. }
    rewrite (Hstep Hdir) in Hvis.
    apply IH with (ps1 := ps1) (ps2 := ps2); auto.
    apply parent_length in Hdir. lia.
Qed.

(** X10: [load_gitignore_patterns] does not recover from a [.gitignore]
    that is a directory: when, on the way up, all earlier [.gitignore]
    entries being regular files, a directory is reached that holds a
    directory named [.gitignore], the call raises [IsADirectoryError] for
    it, also when that directory holds the repository marker, which is
    tested after the read. *)
Theorem load_gitignore_patterns_unreadable (fs : entry) (directory : Path)
    (fuel : nat) (ps1 : list Path) (p : Path) (ps2 : list Path) :
  (List.length directory < fuel)%nat ->
  visited fs (ancestors directory) = ps1 ++ p :: ps2 ->
  forallb (gitignore_readable fs) ps1 = true ->
  path_is_dir fs (p </> ".gitignore") = true ->
  load_gitignore_patterns fuel fs directory
  = Raised (IsADirectoryError (p </> ".gitignore")).
Proof.
  intros Hlen Hvis Hread Hdir.
  assert (Hbad : gitignore_readable fs p = false
                 /\ read_lines fs (p </> ".gitignore")
                    = Raised (IsADirectoryError (p </> ".gitignore"))).
  { unfold path_is_dir in Hdir. unfold gitignore_readable, read_lines.
    destruct (lookup fs (p </> ".gitignore")) as [[| |]|]; try discriminate; auto. }
  destruct Hbad as [Hbad Hraise].
  destruct (@gitignore_loop_unreadable fs directory fuel directory [] ps1 p ps2
              Hlen Hvis Hread Hbad) as (e & He & Hloop).
  unfold load_gitignore_patterns. rewrite Hloop. simpl. congruence.
Qed.

(** ** Runs of the command *)








(** ** The tree handed to the walk *)


(** ** The order of all nodes *)

Lemma Forall2_map_left (A B : Type) (R : A -> B -> Prop) (f : A -> B) (l : list A) :
  (forall x, R x (f x)) -> Forall2 R l (map f l).
Proof. intros HR. induction l; simpl; constructor; auto. Qed.

(** X15: for any listing, special files included, the nodes come in the
    order of the stable sort by (is a regular file, lowercased name) of
    the shown entries: node by node they stand for a rearrangement of the
    shown entries that is sorted by that key, so that everything that is
    not a regular file, directories and special files alike, comes
    first. *)
Theorem walk_directory_sorted_by_key (opts : FilterOptions) (directory : Path)
    (entries : list entry) (tree : Tree) (current_depth : Z) (fuel : nat) :
  (listing_levels entries < fuel)%nat ->
  depth_reached opts current_depth = false ->
  exists nodes emitted,
    walk_directory fuel directory entries tree opts current_depth
    = Returned (extend tree nodes)
    /\ Forall2 (fun e n => node_name n = name e /\ is_dir_node n = is_dir e)
               emitted nodes
    /\ Permutation emitted (filter (shown opts directory) entries)
    /\ StronglySorted (key_le sort_key) emitted.
Proof.
  intros Hfuel Hd.
  exists (nodes_of opts directory current_depth entries),
         (filter (shown opts directory) (sorted sort_key entries)).
  split; [now apply walk_directory_spec|]. unfold nodes_of. rewrite Hd.
  split; [|split].
  - apply Forall2_map_left. intros e. now rewrite node_of_name, node_of_is_dir.
  - apply filter_permutation. symmetry. apply sorted_perm.
  - apply StronglySorted_filter, sorted_sorted.
Qed.

End Further.

(** * The properties on concrete filesystems *)

#[local] Existing Instance Demo.collaborators.

(** The depth test of the script: with [max_depth] 2, the entries at
    depths 0 and 1 have nodes and [level2], at depth 1, has no children. *)
Lemma walk_directory_depth_limit_witness :
  max_depth (Demo.options None false (Some 2)) = Some 2
  /\ (listing_levels (iterdir Demo.tmp_path) < 4)%nat
  /\ exists nodes,
       walk_directory 4 [] (iterdir Demo.tmp_path) Demo.root_tree
         (Demo.options None false (Some 2)) 0
       = Returned (extend Demo.root_tree nodes)
       /\ (exists n, node_at nodes ["level1"; "level2"] n /\ children n = [])
       /\ (forall rel n, node_at nodes rel n -> depth_of rel < 2).
Proof.
  split; [reflexivity|]. split; [vm_compute; lia|].
  destruct (walk_directory_depth_limit (Demo.options None false (Some 2)) []
              (iterdir Demo.tmp_path) Demo.root_tree (k := 2) (fuel := 4))
    as (nodes & Hwalk & Hall & Hnone & Hleaf); [reflexivity|vm_compute; lia|].
  exists nodes. split; [exact Hwalk|]. split; [|exact Hnone].
  destruct (Hall ["level1"; "level2"]
              (Dir "level2" [ File "file2.txt" 7 ["level 2"];
                              Dir "level3" [ File "file3.txt" 7 ["level 3"] ] ]))
    as (n & Hn & _).
  - eapply shown_below; [simpl; left; reflexivity|reflexivity|].
    refine (shown_here _ _ _ (Dir "level2" _) _ _); [simpl; auto|reflexivity].
  - reflexivity.
  - exists n. split; [exact Hn|]. now apply (Hleaf _ _ Hn).
Defined.

(** C1 as stated fails on the depth test of the script: with the limit 2,
    [file2.txt] is an entry at relative depth 2, and the tree has no node
    for it. *)
Lemma depth_limit_counterexample :
  shown_at (Demo.options None false (Some 2)) [] (iterdir Demo.tmp_path)
    ["level1"; "level2"; "file2.txt"] (File "file2.txt" 7 ["level 2"])
  /\ depth_of ["level1"; "level2"; "file2.txt"] = 2
  /\ exists nodes,
       walk_directory 4 [] (iterdir Demo.tmp_path) Demo.root_tree
         (Demo.options None false (Some 2)) 0
       = Returned (extend Demo.root_tree nodes)
       /\ ~ exists n, node_at nodes ["level1"; "level2"; "file2.txt"] n.
Proof.
  split; [|split; [reflexivity|]].
  - eapply shown_below; [simpl; left; reflexivity|reflexivity|].
    eapply shown_below; [simpl; right; left; reflexivity|reflexivity|].
    refine (shown_here _ _ _ (File "file2.txt" _ _) _ _); [simpl; auto|reflexivity].
  - exists (nodes_of (Demo.options None false (Some 2)) [] 0 (iterdir Demo.tmp_path)).
    split; [reflexivity|]. intros [n Hn].
    apply nodes_of_sound with (opts := Demo.options None false (Some 2))
                              (directory := []) (entries := iterdir Demo.tmp_path)
                              (d := 0) in Hn; [|reflexivity].
    destruct Hn as [Hd _]. vm_compute in Hd. discriminate.
Qed.

(** Under the limit 1, [level1] gets its node and is not walked into. *)
Lemma walk_directory_depth_semantics_witness :
  (listing_levels (iterdir Demo.tmp_path) < 4)%nat
  /\ exists nodes,
       walk_directory 4 [] (iterdir Demo.tmp_path) Demo.root_tree
         (Demo.options None false (Some 1)) 0
       = Returned (extend Demo.root_tree nodes)
       /\ exists n, In n nodes /\ label n = DirText None "level1" /\ children n = [].
Proof.
  split; [vm_compute; lia|].
  destruct (walk_directory_depth_semantics (Demo.options None false (Some 1)) []
              (iterdir Demo.tmp_path) Demo.root_tree 0 (fuel := 4))
    as (nodes & Hwalk & _ & Hdir); [vm_compute; lia|].
  exists nodes. split; [exact Hwalk|].
  destruct (Hdir 1 "level1"
              [ File "file1.txt" 7 ["level 1"];
                Dir "level2"
                  [ File "file2.txt" 7 ["level 2"];
                    Dir "level3" [ File "file3.txt" 7 ["level 3"] ] ] ])
    as (n & Hn & Hlabel & Hleaf & _);
    [reflexivity|lia|simpl; auto|reflexivity|].
  exists n. repeat split; auto. apply Hleaf. lia.
Defined.

(** The nodes of [mixed] come out directories first and by lowercased
    name, also when the listing is enumerated backwards. *)
Lemma walk_directory_order_witness :
  (listing_levels Demo.mixed < 2)%nat
  /\ forallb (fun e => is_file e || is_dir e) Demo.mixed = true
  /\ Permutation Demo.mixed (rev Demo.mixed)
  /\ NoDup (map sort_key Demo.mixed)
  /\ exists nodes,
       walk_directory 2 [] Demo.mixed Demo.root_tree (Demo.options None true None) 0
       = Returned (extend Demo.root_tree nodes)
       /\ StronglySorted node_before nodes
       /\ walk_directory 2 [] (rev Demo.mixed) Demo.root_tree
            (Demo.options None true None) 0
          = Returned (extend Demo.root_tree nodes).
Proof.
  assert (Hkeys : NoDup (map sort_key Demo.mixed)).
  { vm_compute. repeat constructor; simpl; intuition discriminate. }
  split; [vm_compute; lia|]. split; [reflexivity|].
  split; [apply Permutation_rev|]. split; [exact Hkeys|].
  destruct (walk_directory_order (Demo.options None true None) [] Demo.mixed
              Demo.root_tree 0 (fuel := 2))
    as (nodes & Hwalk & Hsorted & Hperm); [vm_compute; lia|].
  exists nodes. split; [exact Hwalk|]. split; [now apply Hsorted|].
  apply Hperm; [apply Permutation_rev|exact Hkeys].
Defined.

(** C3 as stated fails on two files whose names differ in case only: they
    have one sort key, so each enumeration order is kept. *)
Lemma enumeration_order_counterexample :
  let a := File "a" 1 ["x"] in
  let A := File "A" 1 ["y"] in
  let node nm := Node (FileText Page nm None 1) None None [] in
  Permutation [a; A] [A; a]
  /\ walk_directory 1 [] [a; A] Demo.root_tree (Demo.options None false None) 0
     = Returned (extend Demo.root_tree [node "a"; node "A"])
  /\ walk_directory 1 [] [A; a] Demo.root_tree (Demo.options None false None) 0
     = Returned (extend Demo.root_tree [node "A"; node "a"])
  /\ extend Demo.root_tree [node "a"; node "A"]
     <> extend Demo.root_tree [node "A"; node "a"].
Proof.
  simpl. split; [apply perm_swap|]. split; [reflexivity|].
  split; [reflexivity|]. discriminate.
Qed.

(** Started in the submodule, the walk up stops there: it holds a [.git]
    entry, and its [.gitignore] is the only one read. *)
Lemma load_gitignore_patterns_ignore_root_witness :
  (List.length ["repo"; "sub"] < 3)%nat
  /\ forallb (gitignore_readable Demo.repo)
             (visited Demo.repo (ancestors ["repo"; "sub"])) = true
  /\ load_gitignore_patterns 3 Demo.repo ["repo"; "sub"]
     = Returned (Some (from_lines ["*.pyc"]), Some ["repo"; "sub"]).
Proof.
  split; [simpl; lia|]. split; [reflexivity|].
  apply (load_gitignore_patterns_ignore_root Demo.repo ["repo"; "sub"] (fuel := 3));
    [simpl; lia|reflexivity].
Defined.

(** C4 as stated fails in a submodule: the first ancestor of [/repo/sub]
    that contains a directory named [.git] is [/repo], yet the ignore root
    returned is [/repo/sub], which contains a file named [.git]. *)
Lemma ignore_root_counterexample :
  find (has_git_directory Demo.repo) (ancestors ["repo"; "sub"]) = Some ["repo"]
  /\ load_gitignore_patterns 3 Demo.repo ["repo"; "sub"]
     = Returned (Some (from_lines ["*.pyc"]), Some ["repo"; "sub"])
  /\ Some ["repo"; "sub"] <> Some ["repo"].
Proof.
  split; [reflexivity|]. split; [reflexivity|]. discriminate.
Qed.

(** From the submodule, rule set and ignore root are both present. *)
Lemma load_gitignore_patterns_both_or_neither_witness :
  (List.length ["repo"; "sub"] < 3)%nat
  /\ match load_gitignore_patterns 3 Demo.repo ["repo"; "sub"] with
     | Returned (Some _, Some _) | Returned (None, None) | Raised _ => True
     | Returned (Some _, None) | Returned (None, Some _) | OutOfFuel => False
     end.
Proof.
  split; [simpl; lia|].
  apply (load_gitignore_patterns_both_or_neither Demo.repo ["repo"; "sub"] (fuel := 3)).
  simpl; lia.
Defined.

(** Without [show_hidden], [mixed] loses [.hidden.txt] and [src/.env]. *)
Lemma walk_directory_hidden_witness :
  (listing_levels Demo.mixed < 2)%nat
  /\ exists nodes,
       walk_directory 2 [] Demo.mixed Demo.root_tree (Demo.options None false None) 0
       = Returned (extend Demo.root_tree nodes)
       /\ forallb (all_nodes (fun t => negb (startswith (node_name t) "."))) nodes
          = true.
Proof.
  split; [vm_compute; lia|].
  destruct (walk_directory_hidden (Demo.options None false None) [] Demo.mixed
              Demo.root_tree 0 (fuel := 2))
    as (nodes & Hwalk & Hhidden & _); [vm_compute; lia|].
  exists nodes. split; [exact Hwalk|]. now apply Hhidden.
Defined.

(** Nothing named [.gitignore] lies on the way up from [/level1]. *)
Lemma main_gitignore_noop_witness :
  (forall p, In p (ancestors (resolve "/level1")) ->
             path_exists Demo.tmp_path (p </> ".gitignore") = false)
  /\ main Demo.tmp_path (Cli.with_gitignore true (Demo.arguments "/level1" false))
     = main Demo.tmp_path (Cli.with_gitignore false (Demo.arguments "/level1" false)).
Proof.
  assert (H : forall p, In p (ancestors (resolve "/level1")) ->
                        path_exists Demo.tmp_path (p </> ".gitignore") = false).
  { intros p [<-|[<-|[]]]; reflexivity. }
  split; [exact H|].
  apply (main_gitignore_noop Demo.tmp_path (Demo.arguments "/level1" false)).
  exact H.
Defined.

(** The exclusion test of the script: [*.txt] and [*.json] drop
    [test.txt] and [data.json] and keep [test.py]. *)
Lemma walk_directory_exclusion_witness :
  exclude_patterns (Demo.options (Some ["*.txt"; "*.json"]) false None)
  = Some ["*.txt"; "*.json"]
  /\ (listing_levels Demo.mixed < 2)%nat
  /\ exists nodes,
       walk_directory 2 [] Demo.mixed Demo.root_tree
         (Demo.options (Some ["*.txt"; "*.json"]) false None) 0
       = Returned (extend Demo.root_tree nodes)
       /\ (~ exists n, In n nodes /\ node_name n = "test.txt")
       /\ (~ exists n, In n nodes /\ node_name n = "data.json")
       /\ (exists n, In n nodes /\ node_name n = "test.py").
Proof.
  split; [reflexivity|]. split; [vm_compute; lia|].
  destruct (walk_directory_exclusion
              (Demo.options (Some ["*.txt"; "*.json"]) false None) []
              Demo.mixed Demo.root_tree 0 (fuel := 2)
              (patterns := ["*.txt"; "*.json"]))
    as (nodes & Hwalk & _ & Hdrop & Hkeep & _); [reflexivity|vm_compute; lia|].
  exists nodes. split; [exact Hwalk|]. repeat split.
  - apply (Hdrop (File "test.txt" 9 ["text file"])); [simpl; auto|].
    exists "*.txt". split; [simpl; auto|reflexivity].
  - apply (Hdrop (File "data.json" 2 ["{}"])); [simpl; auto 6|].
    exists "*.json". split; [simpl; auto|reflexivity].
  - destruct (Hkeep (File "test.py" 11 ["python file"])) as (n & Hn & Hname & _);
      try reflexivity; [simpl; auto 6| |eauto].
    intros (pattern & [<-|[<-|[]]] & Hm); discriminate.
Defined.

(** Walking [/repo] with the ignore root [/repo/sub] and the rule [*]:
    [sub] itself matches and is dropped, and [.gitignore], which is not
    under the ignore root, keeps its node. *)
Lemma walk_directory_ignore_check_witness :
  gitignore_spec (Demo.ignoring ["*"] ["repo"; "sub"]) = Some (from_lines ["*"])
  /\ git_root (Demo.ignoring ["*"] ["repo"; "sub"]) = Some ["repo"; "sub"]
  /\ (listing_levels (iterdir Demo.repo) < 3)%nat
  /\ relative_to (["repo"] </> ".gitignore") ["repo"; "sub"] = None
  /\ relative_to (["repo"] </> "sub") ["repo"; "sub"] = Some []
  /\ exists nodes,
       walk_directory 3 ["repo"]
         (match lookup Demo.repo ["repo"] with Some e => iterdir e | None => [] end)
         Demo.root_tree (Demo.ignoring ["*"] ["repo"; "sub"]) 0
       = Returned (extend Demo.root_tree nodes)
       /\ (exists n, In n nodes /\ node_name n = ".gitignore")
       /\ (~ exists n, In n nodes /\ node_name n = "sub").
Proof.
  split; [reflexivity|]. split; [reflexivity|]. split; [vm_compute; lia|].
  split; [reflexivity|]. split; [reflexivity|].
  destruct (walk_directory_ignore_check (Demo.ignoring ["*"] ["repo"; "sub"])
              ["repo"]
              (match lookup Demo.repo ["repo"] with Some e => iterdir e | None => [] end)
              Demo.root_tree 0 (fuel := 3)
              (spec := from_lines ["*"]) (root := ["repo"; "sub"]))
    as (nodes & Hwalk & Hout & Hin); [reflexivity|reflexivity|vm_compute; lia|].
  exists nodes. split; [exact Hwalk|]. split.
  - destruct (Hout (File ".gitignore" 6 ["build"])) as [_ Hnode];
      [simpl; auto|reflexivity|reflexivity|].
    destruct Hnode as (n & Hn & Hname & _); [split; reflexivity|eauto].
  - eapply (Hin (Dir "sub" _) []); [simpl; auto|reflexivity|reflexivity].
Defined.

(** [/nope] does not exist, and [/notes.txt] is a file. *)
Lemma main_invalid_target_witness :
  path_exists Demo.repo (resolve "/nope") = false
  /\ main Demo.repo (Demo.arguments "/nope" false)
     = Returned {| Cli.exit_code := 1;
                   Cli.stderr := ["Error: Directory '/nope' does not exist."];
                   Cli.stdout := [] |}
  /\ path_exists Demo.repo (resolve "/notes.txt") = true
  /\ path_is_dir Demo.repo (resolve "/notes.txt") = false
  /\ main Demo.repo (Demo.arguments "/notes.txt" false)
     = Returned {| Cli.exit_code := 1;
                   Cli.stderr := ["Error: '/notes.txt' is not a directory."];
                   Cli.stdout := [] |}.
Proof.
  split; [reflexivity|]. split.
  - apply (proj1 (main_invalid_target Demo.repo (Demo.arguments "/nope" false))).
    reflexivity.
  - split; [reflexivity|]. split; [reflexivity|].
    apply (proj2 (main_invalid_target Demo.repo (Demo.arguments "/notes.txt" false)));
      reflexivity.
Defined.

(** [readme] is enumerated before [README], and so is its node. *)
Lemma walk_directory_stable_witness :
  (listing_levels Demo.readmes < 2)%nat
  /\ sort_key (File "readme" 2 ["lower"]) = sort_key (File "README" 3 ["upper"])
  /\ exists n1 a n2 b n3,
       walk_directory 2 [] Demo.readmes Demo.root_tree (Demo.options None false None) 0
       = Returned (extend Demo.root_tree (n1 ++ a :: n2 ++ b :: n3))
       /\ node_name a = "readme" /\ node_name b = "README".
Proof.
  split; [vm_compute; lia|]. split; [reflexivity|].
  destruct (walk_directory_stable (Demo.options None false None) [] Demo.root_tree 0
              (fuel := 2) [File "b.txt" 1 ["b"]] [Dir "src" []] []
              (e1 := File "readme" 2 ["lower"]) (e2 := File "README" 3 ["upper"]))
    as (n1 & a & n2 & b & n3 & Hwalk & Ha & _ & Hb & _);
    try reflexivity; [vm_compute; lia|].
  exists n1, a, n2, b, n3. auto.
Defined.

(** An empty directory leaves the tree as it was. *)
Lemma walk_directory_nothing_shown_witness :
  (listing_levels [] < 1)%nat
  /\ walk_directory 1 ["empty"] [] Demo.root_tree (Demo.options None false None) 0
     = Returned Demo.root_tree.
Proof.
  split; [vm_compute; lia|].
  apply (walk_directory_nothing_shown (Demo.options None false None) ["empty"] []
           Demo.root_tree 0 (fuel := 1)); [vm_compute; lia|].
  right. intros e [].
Defined.

(** With links on, every node of the depth test links to its path. *)
Lemma walk_directory_decoration_witness :
  (listing_levels (iterdir Demo.tmp_path) < 4)%nat
  /\ exists nodes,
       walk_directory 4 [] (iterdir Demo.tmp_path) Demo.root_tree Demo.linked 0
       = Returned (extend Demo.root_tree nodes)
       /\ forall rel n, node_at nodes rel n -> node_link n = Some rel.
Proof.
  split; [vm_compute; lia|].
  destruct (walk_directory_decoration Demo.linked [] (iterdir Demo.tmp_path)
              Demo.root_tree 0 (fuel := 4))
    as (nodes & Hwalk & Hnodes); [vm_compute; lia|].
  exists nodes. split; [exact Hwalk|].
  intros rel n Hat. now destruct (Hnodes rel n Hat) as [Hlink _].
Defined.

(** No name on any path of the tree of [mixed] ends in [.txt]. *)
Lemma walk_directory_exclusion_everywhere_witness :
  exclude_patterns (Demo.options (Some ["*.txt"; "*.json"]) false None)
  = Some ["*.txt"; "*.json"]
  /\ (listing_levels Demo.mixed < 2)%nat
  /\ exists nodes,
       walk_directory 2 [] Demo.mixed Demo.root_tree
         (Demo.options (Some ["*.txt"; "*.json"]) false None) 0
       = Returned (extend Demo.root_tree nodes)
       /\ forall rel n nm,
            node_at nodes rel n -> In nm rel -> fnmatch nm "*.txt" = false.
Proof.
  split; [reflexivity|]. split; [vm_compute; lia|].
  destruct (walk_directory_exclusion_everywhere
              (Demo.options (Some ["*.txt"; "*.json"]) false None) []
              Demo.mixed Demo.root_tree 0 (fuel := 2)
              (patterns := ["*.txt"; "*.json"]))
    as (nodes & Hwalk & Hnodes); [reflexivity|vm_compute; lia|].
  exists nodes. split; [exact Hwalk|].
  intros rel n nm Hat Hnm. apply (Hnodes rel n Hat nm); [exact Hnm|simpl; auto].
Defined.

(** Walking the submodule with [/repo] as ignore root and the rule
    [*.pyc]. *)
Lemma walk_directory_ignored_nowhere_witness :
  gitignore_spec (Demo.ignoring ["*.pyc"] ["repo"]) = Some (from_lines ["*.pyc"])
  /\ git_root (Demo.ignoring ["*.pyc"] ["repo"]) = Some ["repo"]
  /\ exists nodes,
       walk_directory 2 (["repo"] ++ ["sub"])
         (match lookup Demo.repo ["repo"; "sub"] with
          | Some e => iterdir e
          | None => []
          end)
         Demo.root_tree (Demo.ignoring ["*.pyc"] ["repo"]) 0
       = Returned (extend Demo.root_tree nodes)
       /\ forall rel n,
            node_at nodes rel n ->
            match_file (from_lines ["*.pyc"]) (str_rel (["sub"] ++ rel)) = false.
Proof.
  split; [reflexivity|]. split; [reflexivity|].
  destruct (walk_directory_ignored_nowhere (Demo.ignoring ["*.pyc"] ["repo"])
              (spec := from_lines ["*.pyc"]) (root := ["repo"]) ["sub"]
              (match lookup Demo.repo ["repo"; "sub"] with
               | Some e => iterdir e
               | None => []
               end)
              Demo.root_tree 0 (fuel := 2))
    as (nodes & Hwalk & Hnodes); [reflexivity|reflexivity|vm_compute; lia|].
  exists nodes. split; [exact Hwalk|].
  intros rel n Hat. now destruct (Hnodes rel n Hat).
Defined.

(** A [.gitignore] without lines compiles to a rule set that counts as
    absent. *)
Lemma walk_directory_empty_rules_witness :
  ignore_guard (Demo.ignoring [] ["repo"]) = false
  /\ (listing_levels (iterdir Demo.repo) < 3)%nat
  /\ walk_directory 3 [] (iterdir Demo.repo) Demo.root_tree
       (Demo.ignoring [] ["repo"]) 0
     = walk_directory 3 [] (iterdir Demo.repo) Demo.root_tree
         (without_gitignore (Demo.ignoring [] ["repo"])) 0.
Proof.
  split; [reflexivity|]. split; [vm_compute; lia|].
  apply (walk_directory_empty_rules (Demo.ignoring [] ["repo"]) []
           (iterdir Demo.repo) Demo.root_tree 0 (fuel := 3));
    [reflexivity|vm_compute; lia].
Defined.

(** The rule [*] with an ignore root elsewhere hides nothing of [/repo]. *)
Lemma walk_directory_foreign_root_witness :
  git_root (Demo.ignoring ["*"] ["elsewhere"]) = Some ["elsewhere"]
  /\ relative_to ["repo"] ["elsewhere"] = None
  /\ relative_to ["elsewhere"] ["repo"] = None
  /\ walk_directory 3 ["repo"]
       (match lookup Demo.repo ["repo"] with Some e => iterdir e | None => [] end)
       Demo.root_tree (Demo.ignoring ["*"] ["elsewhere"]) 0
     = walk_directory 3 ["repo"]
         (match lookup Demo.repo ["repo"] with Some e => iterdir e | None => [] end)
         Demo.root_tree (without_gitignore (Demo.ignoring ["*"] ["elsewhere"])) 0.
Proof.
  split; [reflexivity|]. split; [reflexivity|]. split; [reflexivity|].
  apply (walk_directory_foreign_root (Demo.ignoring ["*"] ["elsewhere"])
           ["repo"] (root := ["elsewhere"])
           (match lookup Demo.repo ["repo"] with Some e => iterdir e | None => [] end)
           Demo.root_tree 0 (fuel := 3));
    [reflexivity|reflexivity|reflexivity|vm_compute; lia].
Defined.

(** Depth 1 under the limit 2 is depth 0 under the limit 1. *)
Lemma walk_directory_depth_shift_witness :
  max_depth (Demo.options None false (Some 2)) = Some 2
  /\ (listing_levels (iterdir Demo.tmp_path) < 4)%nat
  /\ walk_directory 4 [] (iterdir Demo.tmp_path) Demo.root_tree
       (Demo.options None false (Some 2)) 1
     = walk_directory 4 [] (iterdir Demo.tmp_path) Demo.root_tree
         (set_max_depth (Some (2 - 1)) (Demo.options None false (Some 2))) 0.
Proof.
  split; [reflexivity|]. split; [vm_compute; lia|].
  apply (walk_directory_depth_shift (Demo.options None false (Some 2)) []
           (iterdir Demo.tmp_path) Demo.root_tree 1 (k := 2) (fuel := 4));
    [reflexivity|vm_compute; lia].
Defined.

(** The ignore root found from the submodule lies on its path. *)
Lemma load_gitignore_patterns_root_above_witness :
  load_gitignore_patterns 3 Demo.repo ["repo"; "sub"]
  = Returned (Some (from_lines ["*.pyc"]), Some ["repo"; "sub"])
  /\ exists below,
       ["repo"; "sub"] = ["repo"; "sub"] ++ below
       /\ forall rest,
            relative_to (["repo"; "sub"] ++ rest) ["repo"; "sub"] = Some (below ++ rest).
Proof.
  split; [reflexivity|].
  apply (load_gitignore_patterns_root_above Demo.repo ["repo"; "sub"] 3
           (spec := Some (from_lines ["*.pyc"]))).
  reflexivity.
Defined.

(** In [/work], [.gitignore] is a directory. *)
Lemma load_gitignore_patterns_unreadable_witness :
  (List.length ["work"] < 2)%nat
  /\ visited Demo.broken (ancestors ["work"]) = [] ++ ["work"] :: [[]]
  /\ path_is_dir Demo.broken (["work"] </> ".gitignore") = true
  /\ load_gitignore_patterns 2 Demo.broken ["work"]
     = Raised (IsADirectoryError (["work"] </> ".gitignore")).
Proof.
  split; [simpl; lia|]. split; [reflexivity|]. split; [reflexivity|].
  apply (load_gitignore_patterns_unreadable Demo.broken ["work"] (fuel := 2)
           [] ["work"] [[]]); [simpl; lia|reflexivity|reflexivity|reflexivity].
Defined.





(** In [devices], the special file [null] is sorted with the directory
    [pts], before the regular file [README]. *)
Lemma walk_directory_sorted_by_key_witness :
  (listing_levels Demo.devices < 2)%nat
  /\ depth_reached (Demo.options None false None) 0 = false
  /\ exists nodes emitted,
       walk_directory 2 [] Demo.devices Demo.root_tree (Demo.options None false None) 0
       = Returned (extend Demo.root_tree nodes)
       /\ Forall2 (fun e n => node_name n = name e /\ is_dir_node n = is_dir e)
                  emitted nodes
       /\ Permutation emitted (filter (shown (Demo.options None false None) [])
                                      Demo.devices)
       /\ StronglySorted (key_le sort_key) emitted.
Proof.
  split; [vm_compute; lia|]. split; [reflexivity|].
  apply (walk_directory_sorted_by_key (Demo.options None false None) []
           Demo.devices Demo.root_tree 0 (fuel := 2)); [vm_compute; lia|reflexivity].
Defined.
